(** * CFGuard: the monitoring engine of [internal/monitor/engine.go]

    A shallow embedding of the per-target health state machine, the
    scheduled switch, the backup watchdog and the engine registry, together
    with the properties the design document states about them.

    Conventions.
    - Go's [int] is a 64-bit two's-complement integer: it is a [Z] here, and
      every [x++] of the source goes through [int_incr], which wraps.
    - [Status] is a string type in the source that only ever holds the two
      declared constants; it is an enumeration here.
    - [*Monitor] pointers are locations of a heap of monitor objects, so that
      the registry, the loops and [ForceRestore] share one object per
      activation, as they do in the source.
    - The three callback fields of the engine are either nil or bound; a
      callback invocation [go e.OnX(...)] behind its nil test appends one
      entry to the trace of the operation when the field is bound. A trace
      is the order in which the [go] statements are executed; each callback
      then runs on a goroutine of its own, and nothing is said about the
      order in which the callbacks run.
    - [log.Printf] lines and the mutexes leave no mark: each operation is
      modelled as running alone from its first to its last lock. A handler
      that calls the store and then the engine holds no lock in between,
      and is two operations. *)

From stdpp Require Import base numbers list strings gmap.

Local Open Scope Z_scope.

(** ** Go integers *)

Definition int_min : Z := - 2 ^ 63.
Definition int_max : Z := 2 ^ 63 - 1.

Definition int_wrap (z : Z) : Z := (z + 2 ^ 63) `mod` 2 ^ 64 - 2 ^ 63.

(** [x++] *)
Definition int_incr (z : Z) : Z := int_wrap (z + 1).

(** ** [config.MonitorConfig] *)

Record MonitorConfig := mkMonitorConfig {
  ID : string;
  Name : string;
  ZoneID : string;
  Subdomains : list string;
  CheckType : string;
  CheckTarget : string;
  OriginalIP : string;
  BackupIP : string;
  FailureThreshold : Z;
  SuccessThreshold : Z;
  PingCount : Z;
  Interval : Z;
  TimeoutSeconds : Z;
  OriginalIPCDNEnabled : bool;
  BackupIPCDNEnabled : bool;
  ScheduleEnabled : bool;
  ScheduleHours : Z;
  ScheduleSwitchIP : string
}.

(** ** [monitor.Status] and [monitor.Monitor] *)

Inductive Status := StatusNormal | StatusDown.

#[global] Instance Status_eq_dec : EqDecision Status.
Proof. solve_decision. Defined.

Record Monitor := mkMonitor {
  Config : MonitorConfig;
  Status_ : Status;
  CurrentIP : string;
  FailCount : Z;
  SuccCount : Z;
  BackupFailCount : Z;
  BackupDown : bool
}.

(** ** What an operation leaves behind: probes run and callbacks invoked *)

Inductive CheckKind := KPing | KHTTP | KTCP.

#[global] Instance CheckKind_eq_dec : EqDecision CheckKind.
Proof. solve_decision. Defined.

Inductive Event :=
  | Probed (k : CheckKind)
      (* one of checkPing / checkHTTP / checkTCP ran for the monitor *)
  | BackupProbed (ip : string)
      (* the watchdog ran its pinger against the backup IP *)
  | CallOnSwitch (c : MonitorConfig) (toBackup : bool)
  | CallOnScheduledSwitch (c : MonitorConfig) (fromIP toIP : string)
  | CallOnIPDown (c : MonitorConfig) (ip role : string).

(** The callback fields of [Engine]: [true] when the field holds a function,
    [false] when it is nil. *)
Record Hooks := mkHooks {
  OnSwitch : bool;
  OnScheduledSwitch : bool;
  OnIPDown : bool
}.

(** [if e.OnSwitch != nil { go e.OnSwitch(m, toBackup) }] *)
Definition fireSwitch (h : Hooks) (m : Monitor) (toBackup : bool) : list Event :=
  if OnSwitch h then [CallOnSwitch (Config m) toBackup] else [].

(** [if e.OnScheduledSwitch != nil { go e.OnScheduledSwitch(m, fromIP, toIP) }] *)
Definition fireScheduledSwitch (h : Hooks) (m : Monitor) (fromIP toIP : string)
  : list Event :=
  if OnScheduledSwitch h then [CallOnScheduledSwitch (Config m) fromIP toIP] else [].

(** [if e.OnIPDown != nil { go e.OnIPDown(m, ip, role) }] *)
Definition fireIPDown (h : Hooks) (m : Monitor) (ip role : string) : list Event :=
  if OnIPDown h then [CallOnIPDown (Config m) ip role] else [].

(** ** Field updates *)

Definition set_Status (s : Status) (m : Monitor) : Monitor :=
  mkMonitor (Config m) s (CurrentIP m) (FailCount m) (SuccCount m)
            (BackupFailCount m) (BackupDown m).
Definition set_CurrentIP (ip : string) (m : Monitor) : Monitor :=
  mkMonitor (Config m) (Status_ m) ip (FailCount m) (SuccCount m)
            (BackupFailCount m) (BackupDown m).
Definition set_FailCount (n : Z) (m : Monitor) : Monitor :=
  mkMonitor (Config m) (Status_ m) (CurrentIP m) n (SuccCount m)
            (BackupFailCount m) (BackupDown m).
Definition set_SuccCount (n : Z) (m : Monitor) : Monitor :=
  mkMonitor (Config m) (Status_ m) (CurrentIP m) (FailCount m) n
            (BackupFailCount m) (BackupDown m).
Definition set_BackupFailCount (n : Z) (m : Monitor) : Monitor :=
  mkMonitor (Config m) (Status_ m) (CurrentIP m) (FailCount m) (SuccCount m)
            n (BackupDown m).
Definition set_BackupDown (b : bool) (m : Monitor) : Monitor :=
  mkMonitor (Config m) (Status_ m) (CurrentIP m) (FailCount m) (SuccCount m)
            (BackupFailCount m) b.

(** ** The health state machine: [handleFailure], [handleSuccess] *)

Definition handleFailure (h : Hooks) (m : Monitor) : Monitor * list Event :=
  match Status_ m with
  | StatusNormal =>
      let m1 := set_FailCount (int_incr (FailCount m)) m in
      if decide (FailureThreshold (Config m1) ≤ FailCount m1) then
        let ev1 := fireIPDown h m1 (OriginalIP (Config m1)) "original" in
        let m2 := set_Status StatusDown m1 in
        let m3 := set_CurrentIP (BackupIP (Config m2)) m2 in
        let m4 := set_FailCount 0 m3 in
        (m4, ev1 ++ fireSwitch h m4 true)
      else (m1, [])
  | StatusDown => (set_SuccCount 0 m, [])
  end.

Definition handleSuccess (h : Hooks) (m : Monitor) : Monitor * list Event :=
  match Status_ m with
  | StatusDown =>
      let m1 := set_SuccCount (int_incr (SuccCount m)) m in
      if decide (SuccessThreshold (Config m1) ≤ SuccCount m1) then
        let m2 := set_Status StatusNormal m1 in
        let m3 := set_CurrentIP (OriginalIP (Config m2)) m2 in
        let m4 := set_SuccCount 0 m3 in
        (m4, fireSwitch h m4 false)
      else (m1, [])
  | StatusNormal => (set_FailCount 0 m, [])
  end.

(** ** [scheduledSwitch] *)

(** The target of a scheduled switch, [toIP] of the source. *)
Definition scheduleTarget (m : Monitor) : string :=
  let fromIP := CurrentIP m in
  if decide (ScheduleSwitchIP (Config m) ≠ "") then ScheduleSwitchIP (Config m)
  else if decide (fromIP = OriginalIP (Config m)) then BackupIP (Config m)
  else OriginalIP (Config m).

Definition scheduledSwitch (h : Hooks) (m : Monitor) : Monitor * list Event :=
  if decide (Status_ m = StatusDown) then (m, [])
  else
    let fromIP := CurrentIP m in
    let toIP := scheduleTarget m in
    if decide (toIP = "" ∨ toIP = fromIP) then (m, [])
    else
      let m1 := set_CurrentIP toIP m in
      let m2 := set_FailCount 0 m1 in
      let m3 := set_SuccCount 0 m2 in
      (m3, fireScheduledSwitch h m3 fromIP toIP).

(** ** The network, as one tick sees it *)

(** What a [pro-bing] pinger run comes to: [NewPinger] fails, [Run] fails, or
    statistics are there; of the statistics only the test
    [stats.PacketLoss < 60.0] is used, and it is kept as the boolean it
    evaluates to. *)
Inductive PingResult :=
  | NewPingerError
  | RunError
  | Statistics (lossBelow60 : bool).

Record Net := mkNet {
  ping : string → Z → Z → PingResult;       (* target, count, timeout seconds *)
  httpGet : string → Z → option Z;         (* url, timeout; status code or error *)
  dialTimeout : string → Z → bool;         (* address, timeout; true when err == nil *)
  backupPing : string → Z → Z → PingResult (* the watchdog's own pinger *)
}.

Definition checkPing (net : Net) (m : Monitor) : bool :=
  let target :=
    if decide (CheckTarget (Config m) = "") then OriginalIP (Config m)
    else CheckTarget (Config m) in
  let count :=
    if decide (PingCount (Config m) ≤ 0) then 5 else PingCount (Config m) in
  let timeoutSeconds :=
    if decide (TimeoutSeconds (Config m) ≤ 0) then 2 else TimeoutSeconds (Config m) in
  match ping net target count timeoutSeconds with
  | NewPingerError => false
  | RunError => false
  | Statistics b => b
  end.

Definition checkHTTP (net : Net) (m : Monitor) : bool :=
  let target := CheckTarget (Config m) in
  if decide (target = "") then false
  else
    let timeoutSeconds :=
      if decide (TimeoutSeconds (Config m) ≤ 0) then 10 else TimeoutSeconds (Config m) in
    match httpGet net target timeoutSeconds with
    | None => false
    | Some code => bool_decide (200 ≤ code) && bool_decide (code < 400)
    end.

Definition checkTCP (net : Net) (m : Monitor) : bool :=
  let target := CheckTarget (Config m) in
  if decide (target = "") then false
  else
    let timeoutSeconds :=
      if decide (TimeoutSeconds (Config m) ≤ 0) then 2 else TimeoutSeconds (Config m) in
    dialTimeout net target timeoutSeconds.

(** ** The backup watchdog: [checkBackupHealth] *)

Definition shouldCheck (m : Monitor) : bool :=
  bool_decide (Status_ m = StatusDown)
  && bool_decide (CheckType (Config m) = "ping")
  && bool_decide (BackupIP (Config m) ≠ "").

(** [failureThreshold] of the watchdog, after its default. *)
Definition backupThreshold (m : Monitor) : Z :=
  if decide (FailureThreshold (Config m) ≤ 0) then 3
  else FailureThreshold (Config m).

Definition checkBackupHealth (h : Hooks) (net : Net) (m : Monitor)
  : Monitor * list Event :=
  let backupIP := BackupIP (Config m) in
  let wasDown := BackupDown m in
  let failCount := BackupFailCount m in
  if negb (shouldCheck m) then (m, [])
  else
    let pingCount :=
      if decide (PingCount (Config m) ≤ 0) then 5 else PingCount (Config m) in
    let timeoutSeconds :=
      if decide (TimeoutSeconds (Config m) ≤ 0) then 2 else TimeoutSeconds (Config m) in
    let failureThreshold := backupThreshold m in
    match backupPing net backupIP pingCount timeoutSeconds with
    | NewPingerError => (m, [])
    | Statistics true =>
        (set_BackupDown false (set_BackupFailCount 0 m), [BackupProbed backupIP])
    | _ =>
        let failCount := int_incr failCount in
        let trigger := bool_decide (failureThreshold ≤ failCount) && negb wasDown in
        let m' :=
          if trigger then set_BackupFailCount 0 (set_BackupDown true m)
          else set_BackupFailCount failCount m in
        (m', BackupProbed backupIP
               :: (if trigger then fireIPDown h m' backupIP "backup" else []))
    end.

(** ** One tick of the check loop: [check] *)

(** The [switch m.Config.CheckType] of [check]. *)
Definition selectCheck (checkType : string) : CheckKind :=
  if decide (checkType = "http" ∨ checkType = "https") then KHTTP
  else if decide (checkType = "tcping") then KTCP
  else KPing.

Definition runCheck (k : CheckKind) (net : Net) (m : Monitor) : bool :=
  match k with
  | KHTTP => checkHTTP net m
  | KTCP => checkTCP net m
  | KPing => checkPing net m
  end.

(** [if success { e.handleSuccess(m) } else { e.handleFailure(m) }] *)
Definition observe (h : Hooks) (m : Monitor) (success : bool)
  : Monitor * list Event :=
  if success then handleSuccess h m else handleFailure h m.

Definition check (h : Hooks) (net : Net) (m : Monitor) : Monitor * list Event :=
  let k := selectCheck (CheckType (Config m)) in
  let success := runCheck k net m in
  let '(m1, ev1) := observe h m success in
  let '(m2, ev2) := checkBackupHealth h net m1 in
  (m2, Probed k :: ev1 ++ ev2).

(** ** The locked part of [ForceRestore] and the monitor of [StartMonitor] *)

Definition restore (m : Monitor) : string * Monitor :=
  let fromIP := CurrentIP m in
  let m1 := set_Status StatusNormal m in
  let m2 := set_CurrentIP (OriginalIP (Config m1)) m1 in
  let m3 := set_FailCount 0 m2 in
  let m4 := set_SuccCount 0 m3 in
  (fromIP, m4).

(** [&Monitor{Config: cfg, Status: StatusNormal, CurrentIP: cfg.OriginalIP}];
    the fields left out take Go's zero values. *)
Definition newMonitor (cfg : MonitorConfig) : Monitor :=
  mkMonitor cfg StatusNormal (OriginalIP cfg) 0 0 0 false.

(** ** The engine: registry, contexts, goroutines *)

(** A [context.Context]: the background context or one made by
    [context.WithCancel], named by its allocation number. *)
Inductive Context := Background | Derived (c : nat).

Inductive Goroutine :=
  | GoRun (ctx : nat) (m : nat)          (* go e.run(mCtx, m) *)
  | GoRunSchedule (ctx : nat) (m : nat). (* go e.runSchedule(mCtx, m) *)

Record Engine := mkEngine {
  Monitors : gmap string nat;   (* id -> *Monitor *)
  callbacks : Hooks;
  cancels : gmap string nat;    (* id -> the context its cancel function cancels *)
  heap : list Monitor;          (* the monitor objects ever allocated *)
  parents : list Context;       (* parent of each context made by WithCancel *)
  cancelled : gset nat;         (* contexts whose cancel function was called *)
  spawned : list Goroutine      (* goroutines started so far *)
}.

Definition NewEngine : Engine :=
  mkEngine ∅ (mkHooks false false false) ∅ [] [] ∅ [].

Definition StartMonitor (ctx : Context) (cfg : MonitorConfig) (e : Engine) : Engine :=
  let cancelled1 :=
    match cancels e !! ID cfg with
    | Some c => {[ c ]} ∪ cancelled e
    | None => cancelled e
    end in
  let mCtx := length (parents e) in
  let m := length (heap e) in
  mkEngine (<[ID cfg := m]> (Monitors e))
           (callbacks e)
           (<[ID cfg := mCtx]> (cancels e))
           (heap e ++ [newMonitor cfg])
           (parents e ++ [ctx])
           cancelled1
           (spawned e ++ GoRun mCtx m
              :: (if ScheduleEnabled cfg && bool_decide (0 < ScheduleHours cfg)
                  then [GoRunSchedule mCtx m] else [])).

Definition StopMonitor (id : string) (e : Engine) : Engine :=
  match cancels e !! id with
  | Some c =>
      mkEngine (delete id (Monitors e)) (callbacks e) (delete id (cancels e))
               (heap e) (parents e) ({[ c ]} ∪ cancelled e) (spawned e)
  | None => e
  end.

(** [ForceRestore]: the result pair [(fromIP, ok)] and the engine afterwards.
    A registered pointer always names an allocated object; the last case is
    there for totality only. *)
Definition ForceRestore (id : string) (e : Engine) : (string * bool) * Engine :=
  match Monitors e !! id with
  | None => (("", false), e)
  | Some l =>
      match heap e !! l with
      | Some m =>
          let '(fromIP, m') := restore m in
          ((fromIP, true),
           mkEngine (Monitors e) (callbacks e) (cancels e) (<[l := m']> (heap e))
                    (parents e) (cancelled e) (spawned e))
      | None => (("", false), e)
      end
  end.

(** The monitor registered under [id], read through the registry. *)
Definition monitorOf (e : Engine) (id : string) : option Monitor :=
  Monitors e !! id ≫= λ l, heap e !! l.

(** The bodies of the two loops, run on the object a goroutine holds:
    [e.check(m)] of [run] and [e.scheduledSwitch(m)] of [runSchedule]. *)
Definition onMonitor (l : nat) (f : Monitor → Monitor * list Event) (e : Engine)
  : Engine * list Event :=
  match heap e !! l with
  | Some m =>
      let '(m', ev) := f m in
      (mkEngine (Monitors e) (callbacks e) (cancels e) (<[l := m']> (heap e))
                (parents e) (cancelled e) (spawned e), ev)
  | None => (e, [])
  end.

Definition tickAt (l : nat) (net : Net) (e : Engine) : Engine * list Event :=
  onMonitor l (check (callbacks e) net) e.

Definition scheduleAt (l : nat) (e : Engine) : Engine * list Event :=
  onMonitor l (scheduledSwitch (callbacks e)) e.

(** * Notions used to state the properties *)

(** ** Sample configurations, hooks and networks *)

Definition sampleConfig (failureThreshold successThreshold : Z) : MonitorConfig :=
  mkMonitorConfig "m1" "web" "zone" ["www"] "ping" "" "192.0.2.1" "192.0.2.2"
                  failureThreshold successThreshold 0 0 0 false false true 6 "".

Definition allHooks : Hooks := mkHooks true true true.

(** ** The scheduled target in the design document's words *)

(** The explicit switch-to IP if set; otherwise the backup IP when the
    current IP is the primary one, and the primary IP when it is not. *)
Definition documentedTarget (m : Monitor) : string :=
  if decide (ScheduleSwitchIP (Config m) = "") then
    if decide (CurrentIP m = OriginalIP (Config m)) then BackupIP (Config m)
    else OriginalIP (Config m)
  else ScheduleSwitchIP (Config m).

(** A configuration without a primary IP. *)
Definition noPrimaryConfig : MonitorConfig :=
  mkMonitorConfig "m2" "web" "zone" ["www"] "ping" "198.51.100.7" "" "192.0.2.2"
                  3 2 0 0 0 false false true 6 "".

(** Nothing answers. *)
Definition netAllDown : Net :=
  mkNet (λ _ _ _, Statistics false) (λ _ _, None) (λ _ _, false)
        (λ _ _ _, Statistics false).

(** The primary answers, the backup does not. *)
Definition netPrimaryUp : Net :=
  mkNet (λ _ _ _, Statistics true) (λ _ _, Some 200) (λ _ _, true)
        (λ _ _ _, Statistics false).

(** Everything answers, the backup included. *)
Definition netAllUp : Net :=
  mkNet (λ _ _ _, Statistics true) (λ _ _, Some 200) (λ _ _, true)
        (λ _ _ _, Statistics true).

(** The primary is gone, the backup answers. *)
Definition netBackupUp : Net :=
  mkNet (λ _ _ _, Statistics false) (λ _ _, None) (λ _ _, false)
        (λ _ _ _, Statistics true).

(** A definition whose check type is the plain "tcp", with a port to
    connect to. *)
Definition tcpConfig : MonitorConfig :=
  mkMonitorConfig "m3" "db" "zone" ["db"] "tcp" "192.0.2.1:5432" "192.0.2.1"
                  "192.0.2.2" 3 2 0 0 0 false false false 0 "".

(** The port accepts connections; no pinger can be made for a host:port
    address, and nothing speaks HTTP. *)
Definition netDialOnly : Net :=
  mkNet (λ _ _ _, NewPingerError) (λ _ _, None) (λ _ _, true)
        (λ _ _ _, NewPingerError).

(** An engine with one monitor, driven down by two dead ticks. *)
Definition downEngine : Engine :=
  let e0 := mkEngine ∅ allHooks ∅ [] [] ∅ [] in
  let e1 := StartMonitor Background (sampleConfig 1 1) e0 in
  let e2 := (tickAt 0 netAllDown e1).1 in
  (tickAt 0 netAllDown e2).1.

(** ** Reading a trace *)

(** The probers that ran during an operation, in order. *)
Definition probesOf (evs : list Event) : list CheckKind :=
  omap (λ ev, match ev with Probed k => Some k | _ => None end) evs.

(** ** Runs of one monitor *)

(** What can happen to a monitor object: a tick of its check loop against
    the network of the moment, a fire of its schedule timer, a ForceRestore
    on its id. *)
Inductive Input :=
  | Tick (net : Net)
  | ScheduleFire
  | Restore.

Definition step (h : Hooks) (m : Monitor) (i : Input) : Monitor * list Event :=
  match i with
  | Tick net => check h net m
  | ScheduleFire => scheduledSwitch h m
  | Restore => ((restore m).2, [])
  end.

Inductive reachable (h : Hooks) (cfg : MonitorConfig) : Monitor → Prop :=
  | reachable_start : reachable h cfg (newMonitor cfg)
  | reachable_step m i :
      reachable h cfg m → reachable h cfg (step h m i).1.

(** Only the counter of the current status may be non-zero. *)
Definition gated (m : Monitor) : Prop :=
  (Status_ m = StatusNormal → SuccCount m = 0)
  ∧ (Status_ m = StatusDown → FailCount m = 0).

(** A run of inputs on one monitor, with everything it leaves behind. *)
Fixpoint run (h : Hooks) (m : Monitor) (inputs : list Input)
  : Monitor * list Event :=
  match inputs with
  | [] => (m, [])
  | i :: rest =>
      let r1 := step h m i in
      let r2 := run h r1.1 rest in
      (r2.1, r1.2 ++ r2.2)
  end.

Definition isBackupAlert (ev : Event) : bool :=
  match ev with
  | CallOnIPDown _ _ role => bool_decide (role = "backup")
  | _ => false
  end.

(** How many times the endpoint-down hook was called for the backup role. *)
Fixpoint backupAlerts (evs : list Event) : nat :=
  match evs with
  | [] => 0%nat
  | ev :: rest => ((if isBackupAlert ev then 1 else 0) + backupAlerts rest)%nat
  end.

(** The answer the watchdog's pinger gets for monitor [m]. *)
Definition watchdogPing (net : Net) (m : Monitor) : PingResult :=
  backupPing net (BackupIP (Config m))
    (if decide (PingCount (Config m) ≤ 0) then 5 else PingCount (Config m))
    (if decide (TimeoutSeconds (Config m) ≤ 0) then 2
     else TimeoutSeconds (Config m)).

(** The three conditions under which the watchdog runs. *)
Definition watchdogActive (m : Monitor) : Prop :=
  Status_ m = StatusDown ∧ CheckType (Config m) = "ping"
  ∧ BackupIP (Config m) ≠ "".

#[global] Instance PingResult_eq_dec : EqDecision PingResult.
Proof. solve_decision. Defined.

(** A successful backup probe: on this input the watchdog ran its pinger and
    the statistics showed a loss below 60%. Only a tick can be one, and only
    if the gate is open once the outcome of the primary probe has been fed;
    what the backup would have answered on a closed gate does not count. *)
Definition healthyBackupProbe (h : Hooks) (m : Monitor) (i : Input) : bool :=
  match i with
  | Tick net =>
      let m1 :=
        (observe h m (runCheck (selectCheck (CheckType (Config m))) net m)).1 in
      shouldCheck m1 && bool_decide (watchdogPing net m1 = Statistics true)
  | _ => false
  end.

(** How many successful backup probes a run contains. *)
Fixpoint healthyBackupProbes (h : Hooks) (m : Monitor) (inputs : list Input)
  : nat :=
  match inputs with
  | [] => 0%nat
  | i :: rest =>
      ((if healthyBackupProbe h m i then 1 else 0)
       + healthyBackupProbes h (step h m i).1 rest)%nat
  end.

(** The alerts the watchdog can still raise before the next successful
    backup probe: one while [BackupDown] is false, none once it is true. *)
Definition alertsLeft (m : Monitor) : nat :=
  if BackupDown m then 0%nat else 1%nat.

(** ** Streaks of probe outcomes *)

(** Probe outcomes fed one after the other. *)
Fixpoint feed (h : Hooks) (m : Monitor) (outcomes : list bool) : Monitor :=
  match outcomes with
  | [] => m
  | ok :: rest => feed h (observe h m ok).1 rest
  end.

(** The status each outcome met, with the outcome, oldest first. *)
Fixpoint history (h : Hooks) (m : Monitor) (outcomes : list bool)
  : list (Status * bool) :=
  match outcomes with
  | [] => []
  | ok :: rest => (Status_ m, ok) :: history h (observe h m ok).1 rest
  end.

(** The number of latest probes in a row that met status [st] and had outcome
    [ok]; the past is given latest first. *)
Fixpoint streak (st : Status) (ok : bool) (past : list (Status * bool)) : Z :=
  match past with
  | [] => 0
  | (s, o) :: older =>
      if decide (s = st ∧ o = ok) then 1 + streak st ok older else 0
  end.

(** The counters of [m] are the streaks of the past, and below the
    thresholds of [cfg]. *)
Definition tracks (cfg : MonitorConfig) (m : Monitor)
    (past : list (Status * bool)) : Prop :=
  Config m = cfg
  ∧ (Status_ m = StatusNormal →
       FailCount m = streak StatusNormal false past
       ∧ FailCount m < FailureThreshold cfg ∧ SuccCount m = 0)
  ∧ (Status_ m = StatusDown →
       SuccCount m = streak StatusDown true past
       ∧ SuccCount m < SuccessThreshold cfg ∧ FailCount m = 0).

(** * Further notions: traces, the registry at work, the status listing *)

(** ** Ticks and outcomes *)

(** Two monitors agree on the fields the health state machine reads and
    writes. *)
Definition sameHealth (m m' : Monitor) : Prop :=
  Config m = Config m' ∧ Status_ m = Status_ m' ∧ CurrentIP m = CurrentIP m'
  ∧ FailCount m = FailCount m' ∧ SuccCount m = SuccCount m'.

(** What the prober picked for [cfg] reports on each network of a list. *)
Definition probeOutcomes (cfg : MonitorConfig) (nets : list Net) : list bool :=
  map (λ net, runCheck (selectCheck (CheckType cfg)) net (newMonitor cfg)) nets.

(** The hook calls made while outcomes are fed. *)
Fixpoint feedEvents (h : Hooks) (m : Monitor) (outcomes : list bool)
  : list Event :=
  match outcomes with
  | [] => []
  | ok :: rest => (observe h m ok).2 ++ feedEvents h (observe h m ok).1 rest
  end.

(** The longest run of failures in a row among the outcomes, the first
    outcome continuing a run of [cur] failures. *)
Fixpoint failureRun (cur : nat) (outcomes : list bool) : nat :=
  match outcomes with
  | [] => cur
  | true :: rest => cur `max` failureRun 0 rest
  | false :: rest => failureRun (S cur) rest
  end.

(** The [toBackup] arguments of the failover hook's calls, in order. *)
Definition switchCalls (evs : list Event) : list bool :=
  omap (λ ev, match ev with CallOnSwitch _ b => Some b | _ => None end) evs.

(** [next], then its negation, then [next] again, and so on. *)
Fixpoint alternating (next : bool) (l : list bool) : Prop :=
  match l with
  | [] => True
  | b :: rest => b = next ∧ alternating (negb next) rest
  end.

(** On this network the primary probe of [m] fails and the backup does not
    answer healthily. *)
Definition deadFor (m : Monitor) (net : Net) : Prop :=
  runCheck (selectCheck (CheckType (Config m))) net m = false
  ∧ (watchdogPing net m = RunError ∨ watchdogPing net m = Statistics false).

(** ** Operations on the engine *)

(** What happens to an engine: the three registry calls, and the loop bodies
    run by some goroutine on the object it holds. *)
Inductive Op :=
  | OpStart (ctx : Context) (cfg : MonitorConfig)
  | OpStop (id : string)
  | OpForceRestore (id : string)
  | OpTick (l : nat) (net : Net)
  | OpSchedule (l : nat).

Definition applyOp (op : Op) (e : Engine) : Engine :=
  match op with
  | OpStart ctx cfg => StartMonitor ctx cfg e
  | OpStop id => StopMonitor id e
  | OpForceRestore id => (ForceRestore id e).2
  | OpTick l net => (tickAt l net e).1
  | OpSchedule l => (scheduleAt l e).1
  end.

(** The engines a program can hold: [NewEngine] with its callback fields
    assigned or not, then any operations. *)
Inductive engineReachable : Engine → Prop :=
  | engineReachable_new h :
      engineReachable (mkEngine ∅ h ∅ [] [] ∅ [])
  | engineReachable_step e op :
      engineReachable e → engineReachable (applyOp op e).

(** The registry is consistent: the two maps have the same keys, a
    registered pointer names an allocated monitor made for that id, a
    registered context was allocated and is not cancelled, and neither a
    monitor nor a context is shared by two ids. *)
Definition consistent (e : Engine) : Prop :=
  (∀ id, is_Some (Monitors e !! id) ↔ is_Some (cancels e !! id))
  ∧ (∀ id l, Monitors e !! id = Some l →
       ∃ m, heap e !! l = Some m ∧ ID (Config m) = id)
  ∧ (∀ id c, cancels e !! id = Some c →
       (c < length (parents e))%nat ∧ c ∉ cancelled e)
  ∧ (∀ c, c ∈ cancelled e → (c < length (parents e))%nat)
  ∧ (∀ id id' l, Monitors e !! id = Some l → Monitors e !! id' = Some l →
       id = id')
  ∧ (∀ id id' c, cancels e !! id = Some c → cancels e !! id' = Some c →
       id = id').

(** ** [GetStatus] *)

(** One entry of the listing; the source builds a map with the keys "id",
    "name", "status", "current_ip", "fail_count", "succ_count" and
    "check_type". *)
Record StatusRow := mkStatusRow {
  row_id : string;
  row_name : string;
  row_status : Status;
  row_current_ip : string;
  row_fail_count : Z;
  row_succ_count : Z;
  row_check_type : string
}.

Definition rowOf (m : Monitor) : StatusRow :=
  mkStatusRow (ID (Config m)) (Name (Config m)) (Status_ m) (CurrentIP m)
              (FailCount m) (SuccCount m) (CheckType (Config m)).

(** [GetStatus]. Go leaves the order of a [range] over a map open; the order
    here is the one [map_to_list] happens to give, and nothing below depends
    on it. *)
Definition GetStatus (e : Engine) : list StatusRow :=
  omap (λ kv : string * nat, rowOf <$> heap e !! kv.2)
       (map_to_list (Monitors e)).

(** ** Where the current IP can be *)

(** [m] belongs to [cfg]; Down, it is on the backup IP; Normal, it is on the
    primary IP, unless a scheduled switch took place ([scheduled]) and left
    it on the backup or on the explicit switch-to IP. *)
Definition placed (cfg : MonitorConfig) (scheduled : Prop) (m : Monitor) : Prop :=
  Config m = cfg
  ∧ (Status_ m = StatusDown → CurrentIP m = BackupIP cfg)
  ∧ (Status_ m = StatusNormal →
       CurrentIP m = OriginalIP cfg
       ∨ (scheduled ∧ (CurrentIP m = BackupIP cfg
                       ∨ CurrentIP m = ScheduleSwitchIP cfg))).

(** Every [false] in the list comes right after a [true]; [prev] stands for
    the element before the first one. *)
Fixpoint restoresFollowFailovers (prev : bool) (l : list bool) : Prop :=
  match l with
  | [] => True
  | b :: rest => (b = false → prev = true) ∧ restoresFollowFailovers b rest
  end.

Definition isRestore (i : Input) : bool :=
  match i with Restore => true | _ => false end.

(** The operation is a start or a stop of the monitor registered under [id]. *)
Definition targets (op : Op) (id : string) : Prop :=
  match op with
  | OpStart _ cfg => ID cfg = id
  | OpStop id' => id' = id
  | _ => False
  end.

(** An engine with two monitors: the one of [downEngine] and a second one. *)
Definition twoEngine : Engine :=
  StartMonitor Background noPrimaryConfig downEngine.

(** * The store: [internal/config/store.go]

    The store keeps one [Config] value in memory behind a mutex and rewrites
    its file after every change. Each method is modelled on the value it
    holds; a changing method returns the new store together with the error
    of [saveLocked], which the disk of the moment decides. The change is
    made in memory before the file is written, whatever the write comes to. *)

Module CloudflareConfig.
Record t := mk { APIToken : string; APIKey : string; Email : string }.
End CloudflareConfig.

Module CloudflareAccount.
Record t := mk {
  ID : string; Name : string; APIToken : string; APIKey : string; Email : string
}.
End CloudflareAccount.

Module DingTalkConfig.
Record t := mk { AccessToken : string; Secret : string; Enabled : bool }.
End DingTalkConfig.

Module EmailConfig.
Record t := mk {
  Enabled : bool; Host : string; Port : Z; Username : string;
  Password : string; To : string
}.
End EmailConfig.

Module TelegramConfig.
Record t := mk { Enabled : bool; BotToken : string; ChatID : string }.
End TelegramConfig.

Module ServerConfig.
Record t := mk { Port : Z; Auth : string }.
End ServerConfig.

Module SwitchEvent.
Record t := mk {
  Timestamp : Z; MonitorID : string; Name : string; FromIP : string;
  ToIP : string; ToBackup : bool; CheckType : string; Reason : string
}.
End SwitchEvent.

Module IPDownEvent.
Record t := mk {
  Timestamp : Z; MonitorID : string; Name : string; IP : string; Role : string
}.
End IPDownEvent.

(** [for i, item := range items { if p(item) { ...i...; return } }]: the
    index the loop stops at, if it does. *)
Definition firstIndex {A} (p : A → bool) (items : list A) : option nat :=
  fst <$> list_find (λ item, p item = true) items.

(** The same loop with the test [item.<key> == id]. *)
Definition indexOfKey {A K} `{EqDecision K} (key : A → K) (id : K)
    (items : list A) : option nat :=
  firstIndex (λ item, bool_decide (key item = id)) items.

(** [for _, item := range items { if item.<key> == id { return item, true } }
    return zero, false] *)
Definition getByKey {A K} `{EqDecision K} (key : A → K) (id : K)
    (items : list A) : option A :=
  match indexOfKey key id items with
  | Some i => items !! i
  | None => None
  end.

(** [items = append(items, x); if max > 0 && len(items) > max
     { items = items[len(items)-max:] }] *)
Definition appendCapped {A} (x : A) (max : Z) (items : list A) : list A :=
  let items := items ++ [x] in
  if decide (0 < max ∧ max < Z.of_nat (length items))
  then drop (Z.to_nat (Z.of_nat (length items) - max)) items
  else items.

(** [for i := n - 1; i >= 0 && len(out) < limit; i-- { out = append(out,
    items[i]) }], with [n] the number of indices still to visit. An index
    below [len(items)] always holds an item; the [None] case is there for
    totality only. *)
Fixpoint collectNewest {A} (items : list A) (limit : Z) (n : nat)
    (out : list A) : list A :=
  match n with
  | O => out
  | S i =>
      if decide (Z.of_nat (length out) < limit) then
        match items !! i with
        | Some x => collectNewest items limit i (out ++ [x])
        | None => out
        end
      else out
  end.

(** The body shared by [ListSwitchHistory] and [ListIPDownEvents]. *)
Definition listNewest {A} (limit : Z) (items : list A) : list A :=
  let limit :=
    if decide (limit ≤ 0 ∨ Z.of_nat (length items) < limit)
    then Z.of_nat (length items) else limit in
  collectNewest items limit (length items) [].

Module Store.

(** [config.Config] *)
Record Config := mkConfig {
  Cloudflare : CloudflareConfig.t;
  CloudflareAccounts : list CloudflareAccount.t;
  ActiveAccountIndex : Z;
  DingTalk : DingTalkConfig.t;
  Email : EmailConfig.t;
  Telegram : TelegramConfig.t;
  Monitors : list MonitorConfig;
  Server : ServerConfig.t;
  History : list SwitchEvent.t;
  IPDown : list IPDownEvent.t
}.

(** [config.Store], without its mutex. *)
Record t := mk { path : string; data : Config }.

(** What writing the file comes to: [None] for a nil error. *)
Definition Disk := string → Config → option string.

Definition saveLocked (disk : Disk) (s : t) : option string :=
  disk (path s) (data s).

Definition set_Monitors (ms : list MonitorConfig) (s : t) : t :=
  mk (path s)
     (mkConfig (Cloudflare (data s)) (CloudflareAccounts (data s))
               (ActiveAccountIndex (data s)) (DingTalk (data s))
               (Email (data s)) (Telegram (data s)) ms (Server (data s))
               (History (data s)) (IPDown (data s))).

Definition set_History (hs : list SwitchEvent.t) (s : t) : t :=
  mk (path s)
     (mkConfig (Cloudflare (data s)) (CloudflareAccounts (data s))
               (ActiveAccountIndex (data s)) (DingTalk (data s))
               (Email (data s)) (Telegram (data s)) (Monitors (data s))
               (Server (data s)) hs (IPDown (data s))).

Definition set_IPDown (ds : list IPDownEvent.t) (s : t) : t :=
  mk (path s)
     (mkConfig (Cloudflare (data s)) (CloudflareAccounts (data s))
               (ActiveAccountIndex (data s)) (DingTalk (data s))
               (Email (data s)) (Telegram (data s)) (Monitors (data s))
               (Server (data s)) (History (data s)) ds).

Definition set_Accounts (accounts : list CloudflareAccount.t) (active : Z)
    (s : t) : t :=
  mk (path s)
     (mkConfig (Cloudflare (data s)) accounts active (DingTalk (data s))
               (Email (data s)) (Telegram (data s)) (Monitors (data s))
               (Server (data s)) (History (data s)) (IPDown (data s))).

(** [NewStore]: every field at Go's zero value, the three slices empty. *)
Definition NewStore (path : string) : t :=
  mk path
     (mkConfig (CloudflareConfig.mk "" "" "") [] 0
               (DingTalkConfig.mk "" "" false)
               (EmailConfig.mk false "" 0 "" "" "")
               (TelegramConfig.mk false "" "")
               [] (ServerConfig.mk 0 "") [] []).

(** [cloneMonitorConfig] copies the [Subdomains] slice; as a value the copy
    is the original. *)
Definition cloneMonitorConfig (c : MonitorConfig) : MonitorConfig := c.

Definition ListMonitors (s : t) : list MonitorConfig :=
  map cloneMonitorConfig (Monitors (data s)).

(** [GetMonitor]; [None] stands for the pair of the zero value and [false]. *)
Definition GetMonitor (id : string) (s : t) : option MonitorConfig :=
  cloneMonitorConfig <$> getByKey ID id (Monitors (data s)).

Definition UpsertMonitor (disk : Disk) (m : MonitorConfig) (s : t)
  : t * option string :=
  let s' :=
    match indexOfKey ID (ID m) (Monitors (data s)) with
    | Some i => set_Monitors (<[i := m]> (Monitors (data s))) s
    | None => set_Monitors (Monitors (data s) ++ [m]) s
    end in
  (s', saveLocked disk s').

Definition DeleteMonitor (disk : Disk) (id : string) (s : t)
  : t * option string :=
  let s' :=
    match indexOfKey ID id (Monitors (data s)) with
    | Some i => set_Monitors (delete i (Monitors (data s))) s
    | None => s
    end in
  (s', saveLocked disk s').

Definition AppendSwitchEvent (disk : Disk) (evt : SwitchEvent.t) (max : Z)
    (s : t) : t * option string :=
  let s' := set_History (appendCapped evt max (History (data s))) s in
  (s', saveLocked disk s').

Definition AppendIPDownEvent (disk : Disk) (evt : IPDownEvent.t) (max : Z)
    (s : t) : t * option string :=
  let s' := set_IPDown (appendCapped evt max (IPDown (data s))) s in
  (s', saveLocked disk s').

Definition ListSwitchHistory (limit : Z) (s : t) : list SwitchEvent.t :=
  listNewest limit (History (data s)).

Definition ListIPDownEvents (limit : Z) (s : t) : list IPDownEvent.t :=
  listNewest limit (IPDown (data s)).

Definition GetCloudflareConfig (s : t) : CloudflareConfig.t :=
  let accounts := CloudflareAccounts (data s) in
  let active := ActiveAccountIndex (data s) in
  if decide ((0 < length accounts)%nat ∧ 0 ≤ active
             ∧ active < Z.of_nat (length accounts))
  then
    match accounts !! Z.to_nat active with
    | Some account =>
        CloudflareConfig.mk (CloudflareAccount.APIToken account)
                            (CloudflareAccount.APIKey account)
                            (CloudflareAccount.Email account)
    | None => Cloudflare (data s)
    end
  else Cloudflare (data s).

Definition GetActiveAccountIndex (s : t) : Z := ActiveAccountIndex (data s).

Definition AddCloudflareAccount (disk : Disk) (account : CloudflareAccount.t)
    (s : t) : t * option string :=
  let s' :=
    set_Accounts (CloudflareAccounts (data s) ++ [account])
                 (ActiveAccountIndex (data s)) s in
  (s', saveLocked disk s').

Definition UpdateCloudflareAccount (disk : Disk) (account : CloudflareAccount.t)
    (s : t) : t * option string :=
  let s' :=
    match indexOfKey CloudflareAccount.ID (CloudflareAccount.ID account)
                     (CloudflareAccounts (data s)) with
    | Some i =>
        set_Accounts (<[i := account]> (CloudflareAccounts (data s)))
                     (ActiveAccountIndex (data s)) s
    | None => s
    end in
  (s', saveLocked disk s').

Definition DeleteCloudflareAccount (disk : Disk) (id : string) (s : t)
  : t * option string :=
  let s' :=
    match indexOfKey CloudflareAccount.ID id
                     (CloudflareAccounts (data s)) with
    | Some i =>
        let accounts := delete i (CloudflareAccounts (data s)) in
        let active := ActiveAccountIndex (data s) in
        let active :=
          if decide (active = Z.of_nat i) then 0
          else if decide (Z.of_nat i < active) then int_wrap (active - 1)
          else active in
        set_Accounts accounts active s
    | None => s
    end in
  (s', saveLocked disk s').

Definition ActivateCloudflareAccount (disk : Disk) (id : string) (s : t)
  : t * option string :=
  let s' :=
    match indexOfKey CloudflareAccount.ID id
                     (CloudflareAccounts (data s)) with
    | Some i =>
        set_Accounts (CloudflareAccounts (data s)) (Z.of_nat i) s
    | None => s
    end in
  (s', saveLocked disk s').

End Store.

(** The credentials an account carries. *)
Definition credentialsOf (a : CloudflareAccount.t) : CloudflareConfig.t :=
  CloudflareConfig.mk (CloudflareAccount.APIToken a)
                      (CloudflareAccount.APIKey a)
                      (CloudflareAccount.Email a).

(** Two accounts and a store that holds them, the second one active. *)
Definition accountA : CloudflareAccount.t :=
  CloudflareAccount.mk "a" "first" "token-a" "" "".

Definition accountB : CloudflareAccount.t :=
  CloudflareAccount.mk "b" "second" "token-b" "" "".

Definition twoAccounts : Store.t :=
  Store.set_Accounts [accountA; accountB] 1 (Store.NewStore "data.json").

(** * The monitor handlers of [internal/api/handler.go]

    A handler works on the store and the engine it was built with. What it
    gets from the request is given as arguments: the body as
    [ShouldBindJSON] parsed it ([None] when it returned an error), the [id]
    path parameter, and for a new monitor the clock reading that
    [fmt.Sprintf("%d", time.Now().UnixNano())] prints. What it answers is
    the HTTP status code. *)

Record System := mkSystem {
  store : Store.t;
  engine : Engine
}.

Definition set_ID (id : string) (c : MonitorConfig) : MonitorConfig :=
  mkMonitorConfig id (Name c) (ZoneID c) (Subdomains c) (CheckType c)
    (CheckTarget c) (OriginalIP c) (BackupIP c) (FailureThreshold c)
    (SuccessThreshold c) (PingCount c) (Interval c) (TimeoutSeconds c)
    (OriginalIPCDNEnabled c) (BackupIPCDNEnabled c) (ScheduleEnabled c)
    (ScheduleHours c) (ScheduleSwitchIP c).

Definition set_CheckType (t : string) (c : MonitorConfig) : MonitorConfig :=
  mkMonitorConfig (ID c) (Name c) (ZoneID c) (Subdomains c) t
    (CheckTarget c) (OriginalIP c) (BackupIP c) (FailureThreshold c)
    (SuccessThreshold c) (PingCount c) (Interval c) (TimeoutSeconds c)
    (OriginalIPCDNEnabled c) (BackupIPCDNEnabled c) (ScheduleEnabled c)
    (ScheduleHours c) (ScheduleSwitchIP c).

Module Handler.

(** [if m.CheckType == "" { m.CheckType = "ping" }] *)
Definition defaultCheckType (m : MonitorConfig) : MonitorConfig :=
  if decide (CheckType m = "") then set_CheckType "ping" m else m.

(** The part [AddMonitor] and [UpdateMonitor] share: upsert, and start the
    monitor only if the store could be written. *)
Definition upsertAndStart (rootCtx : Context) (disk : Store.Disk)
    (m : MonitorConfig) (sys : System) : Z * System :=
  let '(st, err) := Store.UpsertMonitor disk m (store sys) in
  match err with
  | Some _ => (500, mkSystem st (engine sys))
  | None => (200, mkSystem st (StartMonitor rootCtx m (engine sys)))
  end.

Definition AddMonitor (rootCtx : Context) (disk : Store.Disk) (now : string)
    (body : option MonitorConfig) (sys : System) : Z * System :=
  match body with
  | None => (400, sys)
  | Some m =>
      let m := if decide (ID m = "") then set_ID now m else m in
      upsertAndStart rootCtx disk (defaultCheckType m) sys
  end.

Definition UpdateMonitor (rootCtx : Context) (disk : Store.Disk) (id : string)
    (body : option MonitorConfig) (sys : System) : Z * System :=
  match body with
  | None => (400, sys)
  | Some m => upsertAndStart rootCtx disk (defaultCheckType (set_ID id m)) sys
  end.

Definition DeleteMonitor (disk : Store.Disk) (id : string) (sys : System)
  : Z * System :=
  let '(st, err) := Store.DeleteMonitor disk id (store sys) in
  match err with
  | Some _ => (500, mkSystem st (engine sys))
  | None => (200, mkSystem st (StopMonitor id (engine sys)))
  end.

(** What [RestoreMonitor] does outside the process: the calls of
    [UpdateRecordBySubdomain] it makes, in order and whether they succeed or
    not, and the notification it sends (its text is built from the name and
    the primary IP). *)
Inductive Effect :=
  | DnsUpdate (zoneID subdomain ip : string) (proxied : bool)
  | Notify (name ip : string).

(** The Cloudflare side as one request sees it: the error of
    [service.NewDNSService] for given credentials and the error of
    [UpdateRecordBySubdomain] for given arguments, [None] for nil. *)
Record Cloud := mkCloud {
  newDNSService : CloudflareConfig.t → option string;
  updateRecordBySubdomain : string → string → string → bool → option string
}.

(** [for _, sub := range subdomains { if err := d.UpdateRecordBySubdomain(...);
    err != nil { ...; return } }] *)
Fixpoint updateSubdomains (cloud : Cloud) (zoneID ip : string) (proxied : bool)
    (subdomains : list string) : list Effect * option string :=
  match subdomains with
  | [] => ([], None)
  | sub :: rest =>
      match updateRecordBySubdomain cloud zoneID sub ip proxied with
      | Some err => ([DnsUpdate zoneID sub ip proxied], Some err)
      | None =>
          let r := updateSubdomains cloud zoneID ip proxied rest in
          (DnsUpdate zoneID sub ip proxied :: r.1, r.2)
      end
  end.

(** [getDNSService]: the error it returns, [None] for nil. *)
Definition getDNSService (cloud : Cloud) (st : Store.t) : option string :=
  let cfg := Store.GetCloudflareConfig st in
  if decide (CloudflareConfig.APIToken cfg = ""
             ∧ (CloudflareConfig.APIKey cfg = ""
                ∨ CloudflareConfig.Email cfg = ""))
  then Some "Cloudflare credentials not configured (api_token OR api_key+email required)"
  else newDNSService cloud cfg.

(** [RestoreMonitor]. The body is [None] when binding failed with an error
    other than [io.EOF], else the optional [proxied] field; [now] is
    [time.Now().UnixMilli()]. *)
Definition RestoreMonitor (cloud : Cloud) (disk : Store.Disk) (now : Z)
    (id : string) (body : option (option bool)) (sys : System)
  : Z * list Effect * System :=
  match body with
  | None => (400, [], sys)
  | Some reqProxied =>
      match Store.GetMonitor id (store sys) with
      | None => (404, [], sys)
      | Some mCfg =>
          if decide (ZoneID mCfg = "") then (400, [], sys)
          else
            let '(fromIP, _, e) := ForceRestore id (engine sys) in
            let fromIP := if decide (fromIP = "") then BackupIP mCfg else fromIP in
            let proxied :=
              match reqProxied with
              | Some b => b
              | None => OriginalIPCDNEnabled mCfg
              end in
            match getDNSService cloud (store sys) with
            | Some _ => (500, [], mkSystem (store sys) e)
            | None =>
                let r := updateSubdomains cloud (ZoneID mCfg) (OriginalIP mCfg)
                           proxied (Subdomains mCfg) in
                match r.2 with
                | Some _ => (500, r.1, mkSystem (store sys) e)
                | None =>
                    let evt :=
                      SwitchEvent.mk now (ID mCfg) (Name mCfg) fromIP
                        (OriginalIP mCfg) false (CheckType mCfg) "restore" in
                    let st := (Store.AppendSwitchEvent disk evt 200 (store sys)).1 in
                    (200, r.1 ++ [Notify (Name mCfg) (OriginalIP mCfg)],
                     mkSystem st e)
                end
            end
      end
  end.

End Handler.

(** ** Store and engine in step *)

(** A request to one of the three handlers. *)
Inductive Request :=
  | ReqAdd (now : string) (body : option MonitorConfig)
  | ReqUpdate (id : string) (body : option MonitorConfig)
  | ReqDelete (id : string).

Definition serve (rootCtx : Context) (disk : Store.Disk) (req : Request)
    (sys : System) : Z * System :=
  match req with
  | ReqAdd now body => Handler.AddMonitor rootCtx disk now body sys
  | ReqUpdate id body => Handler.UpdateMonitor rootCtx disk id body sys
  | ReqDelete id => Handler.DeleteMonitor disk id sys
  end.

(** The engine runs exactly the definitions the store holds: the registry is
    consistent, the stored ids are distinct, and under every id the engine's
    monitor has the stored definition as its configuration, or neither has
    anything. *)
Definition inStep (sys : System) : Prop :=
  consistent (engine sys)
  ∧ NoDup (ID <$> Store.Monitors (Store.data (store sys)))
  ∧ ∀ id, Config <$> monitorOf (engine sys) id
          = Store.GetMonitor id (store sys).

(** The operations of the engine that do not register or unregister. *)
Definition keepsRegistry (op : Op) : Prop :=
  match op with
  | OpStart _ _ | OpStop _ => False
  | _ => True
  end.

(** ** The handlers in two halves *)

(** A handler calls the store and then the engine, each under its own lock,
    and holds no lock in between. [storeHalf] is a handler up to the end of
    its store call: the store it leaves, and either the status code with
    which it returns there or the engine call it has still to make, after
    which it answers 200. *)
Definition storeHalf (rootCtx : Context) (disk : Store.Disk) (req : Request)
    (st : Store.t) : Store.t * (Z + Op) :=
  match req with
  | ReqAdd now (Some m) =>
      let m := if decide (ID m = "") then set_ID now m else m in
      let m := Handler.defaultCheckType m in
      let r := Store.UpsertMonitor disk m st in
      (r.1, match r.2 with Some _ => inl 500 | None => inr (OpStart rootCtx m) end)
  | ReqUpdate id (Some m) =>
      let m := Handler.defaultCheckType (set_ID id m) in
      let r := Store.UpsertMonitor disk m st in
      (r.1, match r.2 with Some _ => inl 500 | None => inr (OpStart rootCtx m) end)
  | ReqDelete id =>
      let r := Store.DeleteMonitor disk id st in
      (r.1, match r.2 with Some _ => inl 500 | None => inr (OpStop id) end)
  | ReqAdd _ None | ReqUpdate _ None => (st, inl 400)
  end.

(** Operations of the engine, one after the other. *)
Definition applyOps (ops : list Op) (e : Engine) : Engine :=
  foldl (λ e op, applyOp op e) e ops.

(** A new store beside a new engine with all hooks bound. *)
Definition newSystem : System :=
  mkSystem (Store.NewStore "data.json") (mkEngine ∅ allHooks ∅ [] [] ∅ []).

(** A definition as a client may post it: no id, no check type. *)
Definition postedConfig : MonitorConfig :=
  mkMonitorConfig "" "api" "zone" ["api"] "" "" "192.0.2.1" "192.0.2.2"
                  3 2 0 0 0 false false false 0 "".

(** * Properties *)

(** ** Scheduled switch *)

Lemma scheduleTarget_documented m : scheduleTarget m = documentedTarget m.
Proof.
  unfold scheduleTarget, documentedTarget.
  repeat case_decide; congruence.
Qed.

(** C3. A scheduled-switch fire changes nothing and calls nothing when the
    status is Down, and also when the computed target (the explicit switch-to
    IP if non-empty, else the backup IP when the current IP is the primary
    one, else the primary IP) is empty or is the current IP. In every other
    case it sets the current IP to the target, zeroes both counters, keeps
    the status (and everything else), and calls the scheduled-switch hook
    with the old and the new IP. *)
Theorem scheduledSwitch_spec (h : Hooks) (m : Monitor) :
  (Status_ m = StatusDown → scheduledSwitch h m = (m, []))
  ∧ (documentedTarget m = "" ∨ documentedTarget m = CurrentIP m →
       scheduledSwitch h m = (m, []))
  ∧ (Status_ m ≠ StatusDown → documentedTarget m ≠ "" →
     documentedTarget m ≠ CurrentIP m →
       scheduledSwitch h m =
         (mkMonitor (Config m) (Status_ m) (documentedTarget m) 0 0
                    (BackupFailCount m) (BackupDown m),
          if OnScheduledSwitch h
          then [CallOnScheduledSwitch (Config m) (CurrentIP m) (documentedTarget m)]
          else [])).
Proof.
  rewrite <- scheduleTarget_documented.
  unfold scheduledSwitch, fireScheduledSwitch.
  split; [| split].
  - intros Hd. by rewrite decide_True.
  - intros Ht. case_decide; [done |]. by rewrite decide_True.
  - intros Hs He Hc. rewrite decide_False by done.
    rewrite decide_False by tauto. reflexivity.
Qed.

Lemma scheduledSwitch_spec_witness :
  scheduledSwitch allHooks (newMonitor (sampleConfig 3 2))
  = (mkMonitor (sampleConfig 3 2) StatusNormal "192.0.2.2" 0 0 0 false,
     [CallOnScheduledSwitch (sampleConfig 3 2) "192.0.2.1" "192.0.2.2"]).
Proof.
  apply (scheduledSwitch_spec allHooks (newMonitor (sampleConfig 3 2)));
    vm_compute; congruence.
Defined.

(** C9. With no explicit switch-to IP, status Normal, a backup IP that is
    set and differs from the primary IP, a primary IP that is set, and the
    current IP on the primary: the first fire moves the current IP to the
    backup and calls the scheduled-switch hook with (primary, backup); the
    second fire, the status still Normal, moves it back to the primary, so
    that two fires bring the monitor back to where it was, counters zeroed. *)
Theorem scheduledSwitch_round_trip (h : Hooks) (m : Monitor) :
  ScheduleSwitchIP (Config m) = "" →
  Status_ m = StatusNormal →
  BackupIP (Config m) ≠ "" →
  BackupIP (Config m) ≠ OriginalIP (Config m) →
  OriginalIP (Config m) ≠ "" →
  CurrentIP m = OriginalIP (Config m) →
  let first := scheduledSwitch h m in
  let second := scheduledSwitch h first.1 in
  CurrentIP first.1 = BackupIP (Config m)
  ∧ Status_ first.1 = StatusNormal
  ∧ first.2 = (if OnScheduledSwitch h
               then [CallOnScheduledSwitch (Config m) (OriginalIP (Config m))
                                           (BackupIP (Config m))]
               else [])
  ∧ CurrentIP second.1 = OriginalIP (Config m)
  ∧ CurrentIP second.1 = CurrentIP m
  ∧ Status_ second.1 = StatusNormal
  ∧ second.2 = (if OnScheduledSwitch h
                then [CallOnScheduledSwitch (Config m) (BackupIP (Config m))
                                            (OriginalIP (Config m))]
                else [])
  ∧ second.1 = set_SuccCount 0 (set_FailCount 0 m).
Proof.
  intros Hx Hs Hb Hne Ho Hc.
  destruct m as [cfg st cur fc sc bfc bd]; simpl in *; subst st cur.
  unfold scheduledSwitch, scheduleTarget, fireScheduledSwitch; simpl.
  rewrite Hx.
  destruct (decide ("" ≠ "")) as [Habs | _]; [by destruct Habs |].
  rewrite (decide_True (P := OriginalIP cfg = OriginalIP cfg)) by done.
  rewrite (decide_False (P := BackupIP cfg = "" ∨ _)) by tauto.
  simpl. rewrite Hx.
  destruct (decide ("" ≠ "")) as [Habs | _]; [by destruct Habs |].
  rewrite (decide_False (P := BackupIP cfg = OriginalIP cfg)) by done.
  rewrite (decide_False (P := OriginalIP cfg = "" ∨ _)) by (intros [?|?]; congruence).
  simpl. repeat split; reflexivity.
Qed.

Lemma scheduledSwitch_round_trip_witness :
  CurrentIP (scheduledSwitch allHooks
               (scheduledSwitch allHooks (newMonitor (sampleConfig 3 2))).1).1
  = "192.0.2.1".
Proof.
  apply (scheduledSwitch_round_trip allHooks (newMonitor (sampleConfig 3 2)));
    vm_compute; congruence.
Defined.

(** C9 as stated fails: the round trip needs the primary IP to be set: with an empty
    primary IP the first fire goes to the backup and the second one computes
    the empty target, which is the no-op case, so the monitor stays on the
    backup. *)
Lemma scheduledSwitch_round_trip_counterexample :
  let m := newMonitor noPrimaryConfig in
  ScheduleSwitchIP (Config m) = ""
  ∧ Status_ m = StatusNormal
  ∧ BackupIP (Config m) ≠ ""
  ∧ BackupIP (Config m) ≠ OriginalIP (Config m)
  ∧ CurrentIP m = OriginalIP (Config m)
  ∧ Status_ (scheduledSwitch allHooks m).1 = StatusNormal
  ∧ CurrentIP (scheduledSwitch allHooks m).1 = BackupIP (Config m)
  ∧ CurrentIP (scheduledSwitch allHooks (scheduledSwitch allHooks m).1).1
    ≠ CurrentIP m.
Proof. vm_compute. repeat split; congruence. Qed.

(** ** What the watchdog and the state machine leave alone *)

Lemma checkBackupHealth_health_fields h net m :
  let m' := (checkBackupHealth h net m).1 in
  Config m' = Config m ∧ Status_ m' = Status_ m ∧ CurrentIP m' = CurrentIP m
  ∧ FailCount m' = FailCount m ∧ SuccCount m' = SuccCount m.
Proof.
  unfold checkBackupHealth.
  destruct (shouldCheck m); simpl; [| done].
  destruct (backupPing _ _ _ _) as [| | []]; simpl; try done;
    destruct (_ && _); simpl; done.
Qed.

Lemma observe_backup_fields h m ok :
  let m' := (observe h m ok).1 in
  Config m' = Config m ∧ BackupFailCount m' = BackupFailCount m
  ∧ BackupDown m' = BackupDown m.
Proof.
  unfold observe, handleSuccess, handleFailure.
  destruct ok, (Status_ m); simpl; try done; case_decide; simpl; done.
Qed.

Lemma scheduledSwitch_backup_fields h m :
  let m' := (scheduledSwitch h m).1 in
  Config m' = Config m ∧ BackupFailCount m' = BackupFailCount m
  ∧ BackupDown m' = BackupDown m.
Proof.
  unfold scheduledSwitch. repeat case_decide; simpl; done.
Qed.

(** The watchdog on a closed gate. *)
Lemma checkBackupHealth_gate h net m :
  ¬ (Status_ m = StatusDown ∧ CheckType (Config m) = "ping"
     ∧ BackupIP (Config m) ≠ "") →
  checkBackupHealth h net m = (m, []).
Proof.
  intros Hg. unfold checkBackupHealth.
  destruct (shouldCheck m) eqn:Hs; [| done].
  exfalso. apply Hg. unfold shouldCheck in Hs.
  rewrite !andb_true_iff, !bool_decide_eq_true in Hs. tauto.
Qed.

(** ** ForceRestore *)

(** [ForceRestore] on a registered id works on the object the registry
    points to. *)
Lemma ForceRestore_at (id : string) (e : Engine) (l : nat) (m : Monitor) :
  Monitors e !! id = Some l →
  heap e !! l = Some m →
  (ForceRestore id e).1 = ((restore m).1, true)
  ∧ monitorOf (ForceRestore id e).2 id = Some (restore m).2
  ∧ Monitors (ForceRestore id e).2 = Monitors e
  ∧ (∀ l', l' ≠ l → heap (ForceRestore id e).2 !! l' = heap e !! l').
Proof.
  intros Hreg Hobj. unfold ForceRestore, monitorOf. rewrite Hreg, Hobj. simpl.
  rewrite Hreg. simpl.
  split_and!; try done.
  - rewrite list_lookup_insert_eq; [done |]. by eapply lookup_lt_Some.
  - intros l' Hne. by rewrite list_lookup_insert_ne.
Qed.

(** C4. For a registered monitor, whatever its status, current IP and
    counters, ForceRestore returns the current IP held before the call (with
    ok = true) and leaves the monitor with status Normal, the current IP on
    the configured primary IP and both counters at 0; the registry and every
    other object are as before. *)
Theorem ForceRestore_registered (id : string) (e : Engine) (l : nat) (m : Monitor) :
  Monitors e !! id = Some l →
  heap e !! l = Some m →
  let r := ForceRestore id e in
  r.1 = (CurrentIP m, true)
  ∧ monitorOf r.2 id
    = Some (mkMonitor (Config m) StatusNormal (OriginalIP (Config m)) 0 0
                      (BackupFailCount m) (BackupDown m))
  ∧ Monitors r.2 = Monitors e
  ∧ (∀ l', l' ≠ l → heap r.2 !! l' = heap e !! l').
Proof.
  intros Hreg Hobj r. subst r.
  destruct (ForceRestore_at id e l m Hreg Hobj) as (H1 & H2 & H3 & H4).
  split_and!; done.
Qed.

Lemma ForceRestore_registered_witness :
  (ForceRestore "m1" downEngine).1 = ("192.0.2.2", true)
  ∧ monitorOf (ForceRestore "m1" downEngine).2 "m1"
    = Some (mkMonitor (sampleConfig 1 1) StatusNormal "192.0.2.1" 0 0 1 true).
Proof.
  pose proof (ForceRestore_registered "m1" downEngine 0
                (mkMonitor (sampleConfig 1 1) StatusDown "192.0.2.2" 0 0 1 true)
                ltac:(vm_compute; reflexivity) ltac:(vm_compute; reflexivity))
    as (H1 & H2 & _).
  split; [exact H1 | exact H2].
Defined.

(** C10. For an id that is not registered, ForceRestore returns the empty
    string with ok = false, and the engine, with every monitor object in it,
    is as before. *)
Theorem ForceRestore_unknown (id : string) (e : Engine) :
  Monitors e !! id = None →
  ForceRestore id e = (("", false), e).
Proof. intros Hreg. unfold ForceRestore. by rewrite Hreg. Qed.

Lemma ForceRestore_unknown_witness :
  ForceRestore "nobody" downEngine = (("", false), downEngine).
Proof.
  apply (ForceRestore_unknown "nobody" downEngine). vm_compute. reflexivity.
Defined.

(** ** Leaving Down and the watchdog's fields *)

(** C2, as the code has it. Neither way out of Down touches the watchdog's
    fields: the restore transition of [handleSuccess], the whole tick in
    which it happens, and [ForceRestore] all leave [BackupFailCount] and
    [BackupDown] as they were. *)
Theorem leaving_Down_keeps_backup_fields
    (h : Hooks) (id : string) (e : Engine) (l : nat) (m : Monitor) :
  Status_ m = StatusDown →
  Monitors e !! id = Some l →
  heap e !! l = Some m →
  (Status_ (handleSuccess h m).1 = StatusNormal →
     BackupFailCount (handleSuccess h m).1 = BackupFailCount m
     ∧ BackupDown (handleSuccess h m).1 = BackupDown m)
  ∧ (∀ net, Status_ (check h net m).1 = StatusNormal →
       BackupFailCount (check h net m).1 = BackupFailCount m
       ∧ BackupDown (check h net m).1 = BackupDown m)
  ∧ (∃ m', monitorOf (ForceRestore id e).2 id = Some m'
           ∧ Status_ m' = StatusNormal
           ∧ BackupFailCount m' = BackupFailCount m
           ∧ BackupDown m' = BackupDown m).
Proof.
  intros Hd Hreg Hobj. split_and!.
  - intros _. pose proof (observe_backup_fields h m true) as (_ & H1 & H2).
    by split.
  - intros net. unfold check.
    pose proof (observe_backup_fields h m
                  (runCheck (selectCheck (CheckType (Config m))) net m))
      as (_ & H1 & H2).
    destruct (observe _ _ _) as [m1 ev1]; simpl in *.
    pose proof (checkBackupHealth_health_fields h net m1) as (_ & Hs & _).
    destruct (decide (Status_ m1 = StatusDown)) as [Hd1 | Hn1].
    + destruct (checkBackupHealth h net m1) as [m2 ev2]; simpl in *.
      congruence.
    + rewrite checkBackupHealth_gate by tauto. simpl. done.
  - destruct (ForceRestore_at id e l m Hreg Hobj) as (_ & Hm & _).
    eexists. split; [exact Hm |]. by simpl.
Qed.

Lemma leaving_Down_keeps_backup_fields_witness :
  let m := mkMonitor (sampleConfig 1 1) StatusDown "192.0.2.2" 0 0 1 true in
  (Status_ (handleSuccess allHooks m).1 = StatusNormal
   ∧ BackupFailCount (handleSuccess allHooks m).1 = 1
   ∧ BackupDown (handleSuccess allHooks m).1 = true)
  ∧ (Status_ (check allHooks netAllUp m).1 = StatusNormal
     ∧ BackupFailCount (check allHooks netAllUp m).1 = 1
     ∧ BackupDown (check allHooks netAllUp m).1 = true)
  ∧ (∃ m', monitorOf (ForceRestore "m1" downEngine).2 "m1" = Some m'
           ∧ Status_ m' = StatusNormal
           ∧ BackupFailCount m' = 1
           ∧ BackupDown m' = true).
Proof.
  intros m.
  destruct (leaving_Down_keeps_backup_fields allHooks "m1" downEngine 0 m
              eq_refl ltac:(vm_compute; reflexivity) ltac:(vm_compute; reflexivity))
    as (H1 & H2 & H3).
  split; [| split; [| exact H3]].
  - split; [vm_compute; reflexivity | apply H1; vm_compute; reflexivity].
  - split; [vm_compute; reflexivity | apply H2; vm_compute; reflexivity].
Defined.

(** C2 as stated fails. Thresholds 1 and 1: a dead tick takes the monitor
    Down and the watchdog raises [BackupDown]; a second dead tick counts one
    more backup failure. Then the primary answers and the monitor is restored
    to Normal, or ForceRestore is called: in both cases [BackupFailCount] is
    still 1 and [BackupDown] still true. *)
Lemma leaving_Down_counterexample :
  let m0 := newMonitor (sampleConfig 1 1) in
  let m1 := (check allHooks netAllDown m0).1 in
  let m2 := (check allHooks netAllDown m1).1 in
  let m3 := (check allHooks netPrimaryUp m2).1 in
  Status_ m2 = StatusDown
  ∧ (Status_ m3 = StatusNormal ∧ BackupFailCount m3 = 1 ∧ BackupDown m3 = true)
  ∧ monitorOf downEngine "m1" = Some m2
  ∧ monitorOf (ForceRestore "m1" downEngine).2 "m1"
    = Some (mkMonitor (sampleConfig 1 1) StatusNormal "192.0.2.1" 0 0 1 true).
Proof. vm_compute. repeat split; reflexivity. Qed.

(** ** StartMonitor *)

(** C5. Whatever the engine holds, StartMonitor cancels the context
    registered under the configuration's id, if there is one, and registers
    under that id a newly allocated monitor: status Normal, current IP on
    the configured primary, both counters and the watchdog's fields at
    zero/false. Objects allocated before are untouched and none of them is
    registered under the id any more; the new monitor gets its own,
    uncancelled context and its check loop. *)
Theorem StartMonitor_fresh (ctx : Context) (cfg : MonitorConfig) (e : Engine) :
  let e' := StartMonitor ctx cfg e in
  let l := length (heap e) in
  let c := length (parents e) in
  Monitors e' !! ID cfg = Some l
  ∧ heap e !! l = None
  ∧ monitorOf e' (ID cfg)
    = Some (mkMonitor cfg StatusNormal (OriginalIP cfg) 0 0 0 false)
  ∧ (∀ c0, cancels e !! ID cfg = Some c0 → c0 ∈ cancelled e')
  ∧ (∀ l0 m0, heap e !! l0 = Some m0 →
       heap e' !! l0 = Some m0 ∧ Monitors e' !! ID cfg ≠ Some l0)
  ∧ cancels e' !! ID cfg = Some c
  ∧ parents e !! c = None
  ∧ parents e' !! c = Some ctx
  ∧ GoRun c l ∈ spawned e'
  ∧ (∀ id, id ≠ ID cfg → Monitors e' !! id = Monitors e !! id).
Proof.
  intros e' l c. subst e' l c. unfold StartMonitor, monitorOf; simpl.
  rewrite !lookup_insert_eq. simpl.
  split_and!.
  - done.
  - by apply lookup_ge_None_2.
  - by rewrite lookup_app_r, Nat.sub_diag.
  - intros c0 Hc0. rewrite Hc0. set_solver.
  - intros l0 m0 Hl0. split.
    + rewrite lookup_app_l; [done |]. by eapply lookup_lt_Some.
    + intros Heq. injection Heq as Heq.
      apply lookup_lt_Some in Hl0. lia.
  - done.
  - by apply lookup_ge_None_2.
  - by rewrite lookup_app_r, Nat.sub_diag.
  - apply elem_of_app. right. apply elem_of_cons. by left.
  - intros id Hne. by rewrite lookup_insert_ne.
Qed.

(** The scenario of C5: started, driven Down, started again under the same
    id: the registered monitor is the clean one again, and the first
    context is cancelled. *)
Lemma StartMonitor_fresh_witness :
  monitorOf downEngine "m1"
  = Some (mkMonitor (sampleConfig 1 1) StatusDown "192.0.2.2" 0 0 1 true)
  ∧ monitorOf (StartMonitor Background (sampleConfig 3 2) downEngine) "m1"
    = Some (mkMonitor (sampleConfig 3 2) StatusNormal "192.0.2.1" 0 0 0 false)
  ∧ 0%nat ∈ cancelled (StartMonitor Background (sampleConfig 3 2) downEngine).
Proof.
  destruct (StartMonitor_fresh Background (sampleConfig 3 2) downEngine)
    as (_ & _ & Hm & Hc & _).
  split; [vm_compute; reflexivity |].
  split; [exact Hm |].
  apply Hc. vm_compute. reflexivity.
Defined.

(** ** The probe of a tick *)

Lemma probesOf_app evs1 evs2 :
  probesOf (evs1 ++ evs2) = probesOf evs1 ++ probesOf evs2.
Proof. unfold probesOf. apply omap_app. Qed.

Lemma probesOf_observe h m ok : probesOf (observe h m ok).2 = [].
Proof.
  unfold observe, handleSuccess, handleFailure, fireSwitch, fireIPDown.
  destruct ok, (Status_ m); simpl; try done;
    case_decide; simpl; try done;
    destruct (OnSwitch h), (OnIPDown h); done.
Qed.

Lemma probesOf_checkBackupHealth h net m :
  probesOf (checkBackupHealth h net m).2 = [].
Proof.
  unfold checkBackupHealth, fireIPDown.
  destruct (shouldCheck m); simpl; [| done].
  destruct (backupPing _ _ _ _) as [| | []]; simpl; try done;
    destruct (_ && _); simpl; try done; destruct (OnIPDown h); done.
Qed.

(** C7, as the code has it. A tick runs exactly one prober, picked by the
    configured check type: the TCP connect for the tag "tcping", the HTTP GET
    for "http" and "https", the ping for every other tag, the empty one and
    "tcp" included; the state machine is fed the result of that prober. *)
Theorem check_runs_one_probe (h : Hooks) (net : Net) (m : Monitor) :
  let k := selectCheck (CheckType (Config m)) in
  let fed := (observe h m (runCheck k net m)).1 in
  let m' := (check h net m).1 in
  probesOf (check h net m).2 = [k]
  ∧ (Status_ m' = Status_ fed ∧ CurrentIP m' = CurrentIP fed
     ∧ FailCount m' = FailCount fed ∧ SuccCount m' = SuccCount fed)
  ∧ (CheckType (Config m) = "tcping" →
       k = KTCP ∧ runCheck k net m = checkTCP net m)
  ∧ (CheckType (Config m) = "http" ∨ CheckType (Config m) = "https" →
       k = KHTTP ∧ runCheck k net m = checkHTTP net m)
  ∧ (CheckType (Config m) ≠ "tcping" → CheckType (Config m) ≠ "http" →
     CheckType (Config m) ≠ "https" →
       k = KPing ∧ runCheck k net m = checkPing net m).
Proof.
  intros k fed m'. subst k fed m'. unfold check.
  pose proof (probesOf_observe h m
                (runCheck (selectCheck (CheckType (Config m))) net m)) as Hobs.
  destruct (observe _ _ _) as [m1 ev1]; simpl in *.
  pose proof (probesOf_checkBackupHealth h net m1) as Hwd.
  pose proof (checkBackupHealth_health_fields h net m1) as (_ & Hs & Hc & Hf & Hsc).
  destruct (checkBackupHealth h net m1) as [m2 ev2]; simpl in *.
  split_and!; try done.
  - by rewrite probesOf_app, Hobs, Hwd.
  - intros Ht. unfold selectCheck. rewrite Ht. done.
  - intros Ht. unfold selectCheck. by rewrite decide_True.
  - intros H1 H2 H3. unfold selectCheck.
    rewrite decide_False by tauto. by rewrite decide_False.
Qed.

Lemma check_runs_one_probe_witness :
  probesOf (check allHooks netAllDown (newMonitor (sampleConfig 3 2))).2 = [KPing]
  ∧ selectCheck "tcping" = KTCP
  ∧ selectCheck "https" = KHTTP
  ∧ selectCheck "" = KPing.
Proof.
  split.
  - apply (check_runs_one_probe allHooks netAllDown (newMonitor (sampleConfig 3 2))).
  - vm_compute. done.
Defined.

(** C7 as stated fails: the check type "tcp" is not a tag of the switch in
    [check]. A monitor of that type, with a port that accepts connections as
    its target, is probed by ping and not by a TCP connect: the tick counts
    a failure although the connect would have succeeded. *)
Lemma check_tcp_counterexample :
  let m := newMonitor tcpConfig in
  CheckType (Config m) = "tcp"
  ∧ selectCheck (CheckType (Config m)) = KPing
  ∧ probesOf (check allHooks netDialOnly m).2 = [KPing]
  ∧ checkTCP netDialOnly m = true
  ∧ checkPing netDialOnly m = false
  ∧ FailCount (check allHooks netDialOnly m).1 = 1.
Proof. vm_compute. repeat split; reflexivity. Qed.

(** ** Reachable states of one monitor *)

Lemma gated_observe h m ok : gated m → gated (observe h m ok).1.
Proof.
  unfold gated, observe, handleSuccess, handleFailure.
  intros [Hn Hd].
  destruct ok, (Status_ m) eqn:Hs; simpl; try case_decide; simpl;
    rewrite ?Hs; split; intros; try done; auto.
Qed.

Lemma gated_checkBackupHealth h net m :
  gated m → gated (checkBackupHealth h net m).1.
Proof.
  unfold gated.
  pose proof (checkBackupHealth_health_fields h net m) as (_ & -> & _ & -> & ->).
  done.
Qed.

Lemma gated_check h net m : gated m → gated (check h net m).1.
Proof.
  intros Hg. unfold check.
  pose proof (gated_observe h m
                (runCheck (selectCheck (CheckType (Config m))) net m) Hg) as Hobs.
  destruct (observe _ _ _) as [m1 ev1]; simpl in *.
  pose proof (gated_checkBackupHealth h net m1 Hobs) as Hwd.
  by destruct (checkBackupHealth h net m1) as [m2 ev2].
Qed.

Lemma gated_scheduledSwitch h m : gated m → gated (scheduledSwitch h m).1.
Proof.
  unfold gated, scheduledSwitch. intros [Hn Hd].
  repeat case_decide; simpl; split; auto.
Qed.

Lemma gated_restore m : gated (restore m).2.
Proof. unfold gated, restore; simpl. done. Qed.

(** C8. In every state a freshly started monitor can reach through ticks of
    whatever outcome, schedule fires and ForceRestore calls, the success
    counter is 0 while the status is Normal and the failure counter is 0
    while the status is Down. *)
Theorem reachable_gated (h : Hooks) (cfg : MonitorConfig) (m : Monitor) :
  reachable h cfg m →
  (Status_ m = StatusNormal → SuccCount m = 0)
  ∧ (Status_ m = StatusDown → FailCount m = 0).
Proof.
  intros Hr. change (gated m). induction Hr as [| m i _ IH].
  - by split.
  - destruct i; simpl.
    + by apply gated_check.
    + by apply gated_scheduledSwitch.
    + apply gated_restore.
Qed.

Lemma reachable_gated_witness :
  let m := (step allHooks
              (step allHooks (newMonitor (sampleConfig 1 2)) (Tick netAllDown)).1
              (Tick netPrimaryUp)).1 in
  Status_ m = StatusDown ∧ SuccCount m = 1 ∧ FailCount m = 0.
Proof.
  intros m.
  assert (Hr : reachable allHooks (sampleConfig 1 2) m)
    by (do 2 apply reachable_step; apply reachable_start).
  destruct (reachable_gated allHooks (sampleConfig 1 2) m Hr) as [_ Hd].
  split; [vm_compute; reflexivity |].
  split; [vm_compute; reflexivity |].
  apply Hd. vm_compute. reflexivity.
Defined.

(** ** The backup watchdog *)

Lemma backupAlerts_app evs1 evs2 :
  backupAlerts (evs1 ++ evs2) = (backupAlerts evs1 + backupAlerts evs2)%nat.
Proof. induction evs1 as [| ev evs1 IH]; simpl; [done | rewrite IH; lia]. Qed.

Lemma backupAlerts_observe h m ok : backupAlerts (observe h m ok).2 = 0%nat.
Proof.
  unfold observe, handleSuccess, handleFailure, fireSwitch, fireIPDown.
  destruct ok, (Status_ m); simpl; try done;
    case_decide; simpl; try done;
    destruct (OnSwitch h), (OnIPDown h); done.
Qed.

Lemma backupAlerts_scheduledSwitch h m :
  backupAlerts (scheduledSwitch h m).2 = 0%nat.
Proof.
  unfold scheduledSwitch, fireScheduledSwitch.
  repeat case_decide; simpl; try done. by destruct (OnScheduledSwitch h).
Qed.

Lemma shouldCheck_open m :
  Status_ m = StatusDown → CheckType (Config m) = "ping" →
  BackupIP (Config m) ≠ "" → shouldCheck m = true.
Proof.
  intros H1 H2 H3. unfold shouldCheck.
  by rewrite !bool_decide_eq_true_2.
Qed.

(** One watchdog evaluation: what it adds to the alerts and leaves of the
    alerts still possible is covered by what was possible before, plus one
    if the probe was a successful one. *)
Lemma checkBackupHealth_budget h net m :
  let r := checkBackupHealth h net m in
  (backupAlerts r.2 + alertsLeft r.1
   ≤ (if shouldCheck m && bool_decide (watchdogPing net m = Statistics true)
      then 1 else 0) + alertsLeft m)%nat.
Proof.
  unfold checkBackupHealth, fireIPDown, watchdogPing, alertsLeft.
  destruct (shouldCheck m); simpl; [| lia].
  destruct (backupPing _ _ _ _) as [| | []]; simpl;
    destruct (bool_decide (backupThreshold m ≤ int_incr (BackupFailCount m)));
    destruct (BackupDown m) eqn:Hb; simpl; rewrite ?Hb;
    destruct (OnIPDown h); simpl; lia.
Qed.

Lemma step_budget h m i :
  (backupAlerts (step h m i).2 + alertsLeft (step h m i).1
   ≤ (if healthyBackupProbe h m i then 1 else 0) + alertsLeft m)%nat.
Proof.
  destruct i as [net | |]; simpl.
  - unfold check.
    pose proof (backupAlerts_observe h m
                  (runCheck (selectCheck (CheckType (Config m))) net m)) as Ha.
    pose proof (observe_backup_fields h m
                  (runCheck (selectCheck (CheckType (Config m))) net m))
      as (_ & _ & Hb).
    destruct (observe _ _ _) as [m1 ev1]; simpl in *.
    pose proof (checkBackupHealth_budget h net m1) as Hwd.
    destruct (checkBackupHealth h net m1) as [m2 ev2]; simpl in *.
    rewrite backupAlerts_app, Ha. unfold alertsLeft in *.
    rewrite Hb in Hwd. simpl. exact Hwd.
  - pose proof (scheduledSwitch_backup_fields h m) as (_ & _ & Hb).
    rewrite backupAlerts_scheduledSwitch. unfold alertsLeft. rewrite Hb. lia.
  - unfold alertsLeft. simpl. lia.
Qed.

Lemma run_budget h inputs : ∀ m,
  (backupAlerts (run h m inputs).2 + alertsLeft (run h m inputs).1
   ≤ healthyBackupProbes h m inputs + alertsLeft m)%nat.
Proof.
  induction inputs as [| i rest IH]; intros m; simpl; [lia |].
  pose proof (step_budget h m i) as H1.
  specialize (IH (step h m i).1).
  rewrite backupAlerts_app. lia.
Qed.

(** C6. The watchdog does nothing at all unless the status is Down, the
    check type is "ping" and a backup IP is set. When it runs: a healthy
    answer zeroes [BackupFailCount] and clears [BackupDown] and calls no
    hook; an unhealthy one calls the endpoint-down hook for the backup role
    only if [BackupDown] was false and the incremented count has reached the
    (defaulted) failure threshold, and then [BackupDown] becomes true and
    the count 0; otherwise, in particular whenever [BackupDown] is already
    true, it only stores the incremented count. Hence, from any state and
    over any run of ticks, schedule fires and restores, the calls of the hook
    for the backup role, together with the one still possible at the end,
    number at most the successful backup probes of the run plus the one
    possible at the start. In particular, over a run without a successful
    backup probe, which is what lies between two of them, the hook is called
    for the backup role at most once, and not at all if [BackupDown] was
    true at the start; once it has been called, and whenever [BackupDown]
    was true at the start, [BackupDown] is true at the end. *)
Theorem watchdog_alerts_once (h : Hooks) (m : Monitor) :
  (∀ net, ¬ watchdogActive m → checkBackupHealth h net m = (m, []))
  ∧ (∀ net, watchdogActive m → watchdogPing net m = NewPingerError →
       checkBackupHealth h net m = (m, []))
  ∧ (∀ net, watchdogActive m → watchdogPing net m = Statistics true →
       checkBackupHealth h net m
       = (mkMonitor (Config m) (Status_ m) (CurrentIP m) (FailCount m)
                    (SuccCount m) 0 false,
          [BackupProbed (BackupIP (Config m))]))
  ∧ (∀ net, watchdogActive m →
       watchdogPing net m = RunError ∨ watchdogPing net m = Statistics false →
       BackupDown m = false →
       backupThreshold m ≤ int_incr (BackupFailCount m) →
       checkBackupHealth h net m
       = (mkMonitor (Config m) (Status_ m) (CurrentIP m) (FailCount m)
                    (SuccCount m) 0 true,
          BackupProbed (BackupIP (Config m))
            :: (if OnIPDown h
                then [CallOnIPDown (Config m) (BackupIP (Config m)) "backup"]
                else [])))
  ∧ (∀ net, watchdogActive m →
       watchdogPing net m = RunError ∨ watchdogPing net m = Statistics false →
       BackupDown m = true ∨ int_incr (BackupFailCount m) < backupThreshold m →
       checkBackupHealth h net m
       = (mkMonitor (Config m) (Status_ m) (CurrentIP m) (FailCount m)
                    (SuccCount m) (int_incr (BackupFailCount m)) (BackupDown m),
          [BackupProbed (BackupIP (Config m))]))
  ∧ (∀ inputs,
       (backupAlerts (run h m inputs).2 + alertsLeft (run h m inputs).1
        ≤ healthyBackupProbes h m inputs + alertsLeft m)%nat
       ∧ (healthyBackupProbes h m inputs = 0%nat →
            (backupAlerts (run h m inputs).2 ≤ 1)%nat
            ∧ (BackupDown m = true →
                 backupAlerts (run h m inputs).2 = 0%nat
                 ∧ BackupDown (run h m inputs).1 = true)
            ∧ (backupAlerts (run h m inputs).2 = 1%nat →
                 BackupDown (run h m inputs).1 = true))).
Proof.
  split_and!.
  - intros net Hg. by apply checkBackupHealth_gate.
  - intros net (Hs & Ht & Hb) Hp. unfold checkBackupHealth.
    rewrite shouldCheck_open by done. simpl.
    unfold watchdogPing in Hp. by rewrite Hp.
  - intros net (Hs & Ht & Hb) Hp. unfold checkBackupHealth.
    rewrite shouldCheck_open by done. simpl.
    unfold watchdogPing in Hp. by rewrite Hp.
  - intros net (Hs & Ht & Hb) Hp Hd Hthr. unfold checkBackupHealth, fireIPDown.
    rewrite shouldCheck_open by done. simpl.
    unfold watchdogPing in Hp. rewrite Hd.
    rewrite bool_decide_eq_true_2 by done. simpl.
    by destruct Hp as [-> | ->].
  - intros net (Hs & Ht & Hb) Hp Hno. unfold checkBackupHealth.
    rewrite shouldCheck_open by done. simpl.
    unfold watchdogPing in Hp.
    assert (bool_decide (backupThreshold m ≤ int_incr (BackupFailCount m))
            && negb (BackupDown m) = false) as Htr.
    { destruct Hno as [-> | Hlt]; [by rewrite andb_false_r |].
      rewrite bool_decide_eq_false_2 by lia. done. }
    rewrite Htr. by destruct Hp as [-> | ->].
  - intros inputs. pose proof (run_budget h inputs m) as Hb.
    split; [exact Hb |]. intros Hq. rewrite Hq in Hb.
    unfold alertsLeft in *.
    destruct (BackupDown m), (BackupDown (run h m inputs).1);
      split_and!; intros; try done; try lia.
Qed.

(** Thresholds 2 and 1. The backup answers while the monitor is Normal,
    which is no probe of the watchdog; then nothing answers: the third tick
    takes the monitor Down and counts a first backup failure, the fourth
    counts the second one and the alert goes out; four more dead ticks add
    none. A successful backup probe and three more dead ticks after that
    bring the second alert. *)
Lemma watchdog_alerts_once_witness :
  let m := newMonitor (sampleConfig 2 1) in
  let inputs := Tick netAllUp :: replicate 7 (Tick netAllDown) in
  let more := replicate 3 (Tick netAllDown) in
  healthyBackupProbes allHooks m inputs = 0%nat
  ∧ (backupAlerts (run allHooks m inputs).2 ≤ 1)%nat
  ∧ backupAlerts (run allHooks m inputs).2 = 1%nat
  ∧ BackupDown (run allHooks m inputs).1 = true
  ∧ healthyBackupProbes allHooks m (inputs ++ Tick netBackupUp :: more) = 1%nat
  ∧ backupAlerts (run allHooks m (inputs ++ Tick netBackupUp :: more)).2
    = 2%nat.
Proof.
  intros m inputs more.
  destruct (watchdog_alerts_once allHooks m) as (_ & _ & _ & _ & _ & H).
  destruct (H inputs) as [_ Hseg].
  destruct (Hseg ltac:(vm_compute; reflexivity)) as (H1 & _ & H3).
  split; [vm_compute; reflexivity |].
  split; [exact H1 |].
  split; [vm_compute; reflexivity |].
  split; [apply H3; vm_compute; reflexivity |].
  split; vm_compute; reflexivity.
Defined.

(** ** Hysteresis *)

Lemma int_incr_small z : int_min ≤ z + 1 ≤ int_max → int_incr z = z + 1.
Proof.
  unfold int_incr, int_wrap, int_min, int_max. intros Hz.
  rewrite Z.mod_small; lia.
Qed.

Lemma feed_snoc h m outcomes ok :
  feed h m (outcomes ++ [ok]) = (observe h (feed h m outcomes) ok).1.
Proof. revert m. induction outcomes as [| o rest IH]; intros m; simpl; auto. Qed.

Lemma history_snoc h m outcomes ok :
  history h m (outcomes ++ [ok])
  = history h m outcomes ++ [(Status_ (feed h m outcomes), ok)].
Proof.
  revert m. induction outcomes as [| o rest IH]; intros m; simpl; [done |].
  by rewrite IH.
Qed.

Lemma streak_nonneg st ok past : 0 ≤ streak st ok past.
Proof.
  induction past as [| [s o] older IH]; simpl; [lia |]. case_decide; lia.
Qed.

Section Hysteresis.
Variable h : Hooks.
Variable cfg : MonitorConfig.
Hypothesis failure_threshold : 1 ≤ FailureThreshold cfg ≤ int_max.
Hypothesis success_threshold : 1 ≤ SuccessThreshold cfg ≤ int_max.

Lemma tracks_start : tracks cfg (newMonitor cfg) [].
Proof. unfold tracks; simpl. split_and!; [done | intros _; lia | done]. Qed.

Lemma tracks_observe m past ok :
  tracks cfg m past → tracks cfg (observe h m ok).1 ((Status_ m, ok) :: past).
Proof using failure_threshold success_threshold.
  intros (Hc & Hn & Hd).
  pose proof (streak_nonneg StatusNormal false past) as Hfn.
  pose proof (streak_nonneg StatusDown true past) as Hsn.
  unfold int_max, int_min in *.
  unfold tracks, observe, handleSuccess, handleFailure.
  destruct ok, (Status_ m) eqn:Hs; simpl.
  - destruct (Hn eq_refl) as (Hf & Hlt & Hz).
    rewrite Hs. split_and!; [done | | done].
    intros _. lia.
  - destruct (Hd eq_refl) as (Hsc & Hlt & Hz).
    rewrite int_incr_small by (unfold int_min, int_max; lia).
    rewrite Hc. case_decide; simpl.
    + split_and!; [done | | done]. intros _. lia.
    + rewrite Hs. split_and!; [done | done |]. intros _. lia.
  - destruct (Hn eq_refl) as (Hf & Hlt & Hz).
    rewrite int_incr_small by (unfold int_min, int_max; lia).
    rewrite Hc. case_decide; simpl.
    + split_and!; [done | done |]. intros _. lia.
    + rewrite Hs. split_and!; [done | | done]. intros _. lia.
  - destruct (Hd eq_refl) as (Hsc & Hlt & Hz).
    rewrite Hs. split_and!; [done | done |].
    intros _. lia.
Qed.

Lemma tracks_feed outcomes :
  tracks cfg (feed h (newMonitor cfg) outcomes)
         (rev (history h (newMonitor cfg) outcomes)).
Proof using failure_threshold success_threshold.
  induction outcomes as [| ok outcomes IH] using rev_ind.
  - apply tracks_start.
  - rewrite feed_snoc, history_snoc, rev_unit. by apply tracks_observe.
Qed.
End Hysteresis.

(** What one outcome does to a monitor whose counters track the past. *)
Lemma observe_transition (h : Hooks) (cfg : MonitorConfig) (m : Monitor)
    (past : list (Status * bool)) (ok : bool) :
  1 ≤ FailureThreshold cfg ≤ int_max →
  1 ≤ SuccessThreshold cfg ≤ int_max →
  tracks cfg m past →
  let r := observe h m ok in
  let fails := streak StatusNormal false ((Status_ m, ok) :: past) in
  let succs := streak StatusDown true ((Status_ m, ok) :: past) in
  (Status_ m = StatusNormal ∧ Status_ r.1 = StatusDown
     ↔ fails = FailureThreshold cfg)
  ∧ (Status_ m = StatusDown ∧ Status_ r.1 = StatusNormal
     ↔ succs = SuccessThreshold cfg)
  ∧ (Status_ m = StatusNormal → ok = true →
       fails = 0 ∧ FailCount r.1 = 0 ∧ Status_ r.1 = StatusNormal)
  ∧ (Status_ m = StatusDown → ok = false →
       succs = 0 ∧ SuccCount r.1 = 0 ∧ Status_ r.1 = StatusDown)
  ∧ (Status_ m = StatusNormal → Status_ r.1 = StatusDown →
       CurrentIP r.1 = BackupIP cfg ∧ FailCount r.1 = 0
       ∧ r.2 = (if OnIPDown h
                then [CallOnIPDown cfg (OriginalIP cfg) "original"] else [])
               ++ (if OnSwitch h then [CallOnSwitch cfg true] else []))
  ∧ (Status_ m = StatusDown → Status_ r.1 = StatusNormal →
       CurrentIP r.1 = OriginalIP cfg ∧ SuccCount r.1 = 0
       ∧ r.2 = (if OnSwitch h then [CallOnSwitch cfg false] else []))
  ∧ (Status_ r.1 = Status_ m → r.2 = []).
Proof.
  intros HT HS (Hc & Hn & Hd) r fails succs. subst r fails succs.
  pose proof (streak_nonneg StatusNormal false past) as Hfn.
  pose proof (streak_nonneg StatusDown true past) as Hsn.
  unfold int_max in *.
  unfold observe, handleSuccess, handleFailure, fireIPDown, fireSwitch.
  destruct ok, (Status_ m) eqn:Hs; simpl.
  - rewrite Hs. split_and!; try done; try (intros; lia).
    + split; [by intros [_ ?] | lia].
    + split; [by intros [? _] | lia].
  - destruct (Hd eq_refl) as (Hsc & Hlt & Hz).
    rewrite int_incr_small by (unfold int_min, int_max; lia).
    rewrite Hc. case_decide; simpl; rewrite ?Hs, ?Hc.
    + split_and!; try done.
      * split; [by intros [? _] | lia].
      * split; [intros _; lia | done].
    + split_and!; try done.
      * split; [by intros [? _] | lia].
      * split; [by intros [_ ?] | lia].
  - destruct (Hn eq_refl) as (Hf & Hlt & Hz).
    rewrite int_incr_small by (unfold int_min, int_max; lia).
    rewrite Hc. case_decide; simpl; rewrite ?Hs, ?Hc.
    + split_and!; try done.
      * split; [intros _; lia | done].
      * split; [by intros [? _] | lia].
    + split_and!; try done.
      * split; [by intros [_ ?] | lia].
      * split; [by intros [? _] | lia].
  - rewrite Hs. split_and!; try done; try (intros; lia).
    + split; [by intros [? _] | lia].
    + split; [by intros [_ ?] | lia].
Qed.

(** C1, for thresholds of at least 1. Feed any outcomes to a fresh monitor,
    then one more. With [fails] the number of latest failing probes in a row
    that met status Normal, and [succs] the number of latest succeeding
    probes in a row that met status Down, this last one included:
    - the monitor goes from Normal to Down exactly when [fails] is the
      failure threshold, and from Down to Normal exactly when [succs] is the
      success threshold;
    - a success while Normal puts the failure streak and counter back to 0,
      a failure while Down the success streak and counter;
    - going Down calls the endpoint-down hook for the primary IP with role
      "original", puts the current IP on the backup and the failure counter
      to 0, and calls the failover hook with toBackup = true;
    - going back to Normal puts the current IP on the primary and the success
      counter to 0, and calls the failover hook with toBackup = false;
    - an outcome that leaves the status alone calls nothing, and the counter
      of the status is the streak. *)
Theorem hysteresis (h : Hooks) (cfg : MonitorConfig) (outcomes : list bool)
    (ok : bool) :
  1 ≤ FailureThreshold cfg ≤ int_max →
  1 ≤ SuccessThreshold cfg ≤ int_max →
  let m := feed h (newMonitor cfg) outcomes in
  let r := observe h m ok in
  let past := rev (history h (newMonitor cfg) (outcomes ++ [ok])) in
  let fails := streak StatusNormal false past in
  let succs := streak StatusDown true past in
  (Status_ m = StatusNormal ∧ Status_ r.1 = StatusDown
     ↔ fails = FailureThreshold cfg)
  ∧ (Status_ m = StatusDown ∧ Status_ r.1 = StatusNormal
     ↔ succs = SuccessThreshold cfg)
  ∧ (Status_ m = StatusNormal → ok = true →
       fails = 0 ∧ FailCount r.1 = 0 ∧ Status_ r.1 = StatusNormal)
  ∧ (Status_ m = StatusDown → ok = false →
       succs = 0 ∧ SuccCount r.1 = 0 ∧ Status_ r.1 = StatusDown)
  ∧ (Status_ m = StatusNormal → Status_ r.1 = StatusDown →
       CurrentIP r.1 = BackupIP cfg ∧ FailCount r.1 = 0
       ∧ r.2 = (if OnIPDown h
                then [CallOnIPDown cfg (OriginalIP cfg) "original"] else [])
               ++ (if OnSwitch h then [CallOnSwitch cfg true] else []))
  ∧ (Status_ m = StatusDown → Status_ r.1 = StatusNormal →
       CurrentIP r.1 = OriginalIP cfg ∧ SuccCount r.1 = 0
       ∧ r.2 = (if OnSwitch h then [CallOnSwitch cfg false] else []))
  ∧ (Status_ r.1 = Status_ m → r.2 = [])
  ∧ (Status_ r.1 = StatusNormal → FailCount r.1 = fails)
  ∧ (Status_ r.1 = StatusDown → SuccCount r.1 = succs).
Proof.
  intros HT HS m r past fails succs. subst m r past fails succs.
  rewrite history_snoc, rev_unit.
  pose proof (tracks_feed h cfg HT HS outcomes) as Htr.
  pose proof (observe_transition h cfg _ _ ok HT HS Htr)
    as (H1 & H2 & H3 & H4 & H5 & H6 & H7).
  pose proof (tracks_observe h cfg HT HS _ _ ok Htr) as (_ & Hn & Hd).
  split_and!; try done.
  - intros Hs. by destruct (Hn Hs).
  - intros Hs. by destruct (Hd Hs).
Qed.

(** Thresholds 3 and 2, as in the design document's scenario: three failures
    take the monitor Down with both hooks called; then a failure and two
    successes bring it back. *)
Lemma hysteresis_witness :
  let cfg := sampleConfig 3 2 in
  (Status_ (feed allHooks (newMonitor cfg) [false; false]) = StatusNormal
   ∧ observe allHooks (feed allHooks (newMonitor cfg) [false; false]) false
     = (mkMonitor cfg StatusDown "192.0.2.2" 0 0 0 false,
        [CallOnIPDown cfg "192.0.2.1" "original"; CallOnSwitch cfg true]))
  ∧ (Status_ (feed allHooks (newMonitor cfg)
                [false; false; false; false; true]) = StatusDown
     ∧ streak StatusDown true
         (rev (history allHooks (newMonitor cfg)
                 ([false; false; false; false; true] ++ [true]))) = 2
     ∧ Status_ (observe allHooks
                  (feed allHooks (newMonitor cfg)
                     [false; false; false; false; true]) true).1
       = StatusNormal).
Proof.
  intros cfg. split.
  - vm_compute. split; reflexivity.
  - pose proof (hysteresis allHooks cfg [false; false; false; false; true] true
                  ltac:(vm_compute; split; congruence)
                  ltac:(vm_compute; split; congruence))
      as (_ & H2 & _).
    destruct H2 as [_ H2].
    split; [vm_compute; reflexivity |].
    split; [vm_compute; reflexivity |].
    apply H2. vm_compute. reflexivity.
Defined.

(** C1 as stated fails for a threshold below 1. With the failure threshold
    left at 0 the first failing probe takes a fresh monitor Down: one failure
    in a row, not zero. Likewise a success threshold of 0 restores on the
    first success. *)
Lemma hysteresis_counterexample :
  let cfg := sampleConfig 0 0 in
  let m := feed allHooks (newMonitor cfg) [] in
  let r := observe allHooks m false in
  let r' := observe allHooks r.1 true in
  let fails :=
    streak StatusNormal false
      (rev (history allHooks (newMonitor cfg) ([] ++ [false]))) in
  let succs :=
    streak StatusDown true
      (rev (history allHooks (newMonitor cfg) ([false] ++ [true]))) in
  (Status_ m = StatusNormal ∧ Status_ r.1 = StatusDown
   ∧ fails = 1 ∧ FailureThreshold cfg = 0)
  ∧ ¬ (Status_ m = StatusNormal ∧ Status_ r.1 = StatusDown
       ↔ fails = FailureThreshold cfg)
  ∧ (Status_ r'.1 = StatusNormal ∧ succs = 1 ∧ SuccessThreshold cfg = 0)
  ∧ ¬ (Status_ r.1 = StatusDown ∧ Status_ r'.1 = StatusNormal
       ↔ succs = SuccessThreshold cfg).
Proof.
  vm_compute. split_and!; try reflexivity.
  - intros [H _]. specialize (H (conj eq_refl eq_refl)). discriminate H.
  - intros [H _]. specialize (H (conj eq_refl eq_refl)). discriminate H.
Qed.

(** * Further properties *)

(** ** Ticks are outcomes fed to the state machine *)

Lemma runCheck_config k net m m' :
  Config m = Config m' → runCheck k net m = runCheck k net m'.
Proof.
  intros Hc. destruct k; simpl; unfold checkPing, checkHTTP, checkTCP;
    by rewrite Hc.
Qed.

Lemma observe_sameHealth h m m' ok :
  sameHealth m m' →
  sameHealth (observe h m ok).1 (observe h m' ok).1
  ∧ (observe h m ok).2 = (observe h m' ok).2.
Proof.
  destruct m as [c s ip f sc bf bd], m' as [c' s' ip' f' sc' bf' bd'].
  unfold sameHealth; simpl. intros (-> & -> & -> & -> & ->).
  unfold observe, handleSuccess, handleFailure, fireIPDown, fireSwitch; simpl.
  destruct ok, s'; simpl; try done; case_decide; simpl; done.
Qed.

Lemma check_sameHealth h net m :
  sameHealth (check h net m).1
    (observe h m (runCheck (selectCheck (CheckType (Config m))) net m)).1.
Proof.
  unfold check.
  destruct (observe h m _) as [m1 ev1] eqn:Hobs; simpl.
  pose proof (checkBackupHealth_health_fields h net m1) as Hwd.
  destruct (checkBackupHealth h net m1) as [m2 ev2]; simpl in *.
  unfold sameHealth. tauto.
Qed.

Lemma sameHealth_trans m1 m2 m3 :
  sameHealth m1 m2 → sameHealth m2 m3 → sameHealth m1 m3.
Proof. unfold sameHealth. intros (?&?&?&?&?) (?&?&?&?&?). split_and!; congruence. Qed.

Lemma switchCalls_app evs1 evs2 :
  switchCalls (evs1 ++ evs2) = switchCalls evs1 ++ switchCalls evs2.
Proof. unfold switchCalls. apply omap_app. Qed.

Lemma switchCalls_checkBackupHealth h net m :
  switchCalls (checkBackupHealth h net m).2 = [].
Proof.
  unfold checkBackupHealth, fireIPDown.
  destruct (shouldCheck m); simpl; [| done].
  destruct (backupPing _ _ _ _) as [| | []]; simpl; try done;
    destruct (_ && _); simpl; try done; destruct (OnIPDown h); done.
Qed.

Lemma switchCalls_check h net m :
  switchCalls (check h net m).2
  = switchCalls
      (observe h m (runCheck (selectCheck (CheckType (Config m))) net m)).2.
Proof.
  unfold check.
  destruct (observe h m _) as [m1 ev1]; simpl.
  pose proof (switchCalls_checkBackupHealth h net m1) as Hwd.
  destruct (checkBackupHealth h net m1) as [m2 ev2]; simpl in *.
  change (Probed ?k :: ?l) with ([Probed k] ++ l).
  rewrite !switchCalls_app, Hwd, app_nil_r. done.
Qed.

Lemma ticks_as_feed_gen h nets : ∀ m1 m2,
  sameHealth m1 m2 →
  sameHealth (run h m1 (map Tick nets)).1
             (feed h m2 (probeOutcomes (Config m2) nets))
  ∧ switchCalls (run h m1 (map Tick nets)).2
    = switchCalls (feedEvents h m2 (probeOutcomes (Config m2) nets)).
Proof.
  induction nets as [| net nets IH]; intros m1 m2 Hsame; simpl; [done |].
  assert (Hc : Config m1 = Config m2) by apply Hsame.
  set (ok := runCheck (selectCheck (CheckType (Config m2))) net
               (newMonitor (Config m2))).
  assert (Hok : runCheck (selectCheck (CheckType (Config m1))) net m1 = ok).
  { subst ok. rewrite Hc. by apply runCheck_config. }
  pose proof (check_sameHealth h net m1) as H1. rewrite Hok in H1.
  destruct (observe_sameHealth h m1 m2 ok Hsame) as [H2 H3].
  pose proof (sameHealth_trans _ _ _ H1 H2) as H4.
  destruct (IH _ _ H4) as [IH1 IH2].
  assert (Hc' : Config (observe h m2 ok).1 = Config m2)
    by apply (observe_backup_fields h m2 ok).
  rewrite Hc' in IH1, IH2.
  split; [exact IH1 |].
  rewrite !switchCalls_app, IH2, switchCalls_check, Hok, H3. done.
Qed.

(** X1. The watchdog never gets in the way of the health state machine: a
    run of ticks leaves the monitor with the status, current IP and two
    counters that feeding the prober's outcomes alone gives, and with the
    same calls of the failover hook. *)
Theorem ticks_as_feed (h : Hooks) (m : Monitor) (nets : list Net) :
  sameHealth (run h m (map Tick nets)).1
             (feed h m (probeOutcomes (Config m) nets))
  ∧ switchCalls (run h m (map Tick nets)).2
    = switchCalls (feedEvents h m (probeOutcomes (Config m) nets)).
Proof. apply ticks_as_feed_gen. unfold sameHealth. done. Qed.

(** ** Where the current IP can be *)

Lemma placed_observe cfg scheduled h m ok :
  placed cfg scheduled m → placed cfg scheduled (observe h m ok).1.
Proof.
  unfold placed, observe, handleSuccess, handleFailure.
  intros (Hc & Hd & Hn).
  destruct ok, (Status_ m) eqn:Hs; simpl; try case_decide; simpl;
    rewrite ?Hs, ?Hc; split_and!; try done; auto.
Qed.

Lemma placed_sameHealth cfg scheduled m m' :
  sameHealth m m' → placed cfg scheduled m' → placed cfg scheduled m.
Proof.
  unfold sameHealth, placed. intros (-> & -> & -> & _) H. exact H.
Qed.

Lemma placed_weaken cfg (P Q : Prop) m :
  (P → Q) → placed cfg P m → placed cfg Q m.
Proof.
  unfold placed. intros HPQ (Hc & Hd & Hn). split_and!; [done | done |].
  intros Hs. destruct (Hn Hs) as [? | [? ?]]; [by left | right; auto].
Qed.

Lemma placed_weaken_True cfg (P : Prop) m : placed cfg P m → placed cfg True m.
Proof. by apply placed_weaken. Qed.

Lemma scheduledSwitch_cases h m :
  (scheduledSwitch h m).1 = m
  ∨ (Status_ m = StatusNormal
     ∧ (scheduledSwitch h m).1
       = set_SuccCount 0 (set_FailCount 0 (set_CurrentIP (scheduleTarget m) m))).
Proof.
  unfold scheduledSwitch. repeat case_decide; simpl; auto.
  right. split; [by destruct (Status_ m) | done].
Qed.

Lemma scheduleTarget_cases m :
  scheduleTarget m = ScheduleSwitchIP (Config m)
  ∨ scheduleTarget m = BackupIP (Config m)
  ∨ scheduleTarget m = OriginalIP (Config m).
Proof. unfold scheduleTarget. repeat case_decide; auto. Qed.

Lemma placed_scheduledSwitch cfg scheduled h m :
  placed cfg scheduled m → placed cfg True (scheduledSwitch h m).1.
Proof.
  intros Hp.
  destruct (scheduledSwitch_cases h m) as [-> | [Hs ->]].
  - eapply placed_weaken_True; exact Hp.
  - destruct Hp as (Hc & _). unfold placed; simpl. rewrite Hs, Hc.
    split_and!; [done | done |]. intros _.
    destruct (scheduleTarget_cases m) as [-> | [-> | ->]]; rewrite Hc; auto.
Qed.

Lemma placed_run cfg h inputs : ∀ m (scheduled : Prop),
  placed cfg scheduled m →
  placed cfg (scheduled ∨ ScheduleFire ∈ inputs) (run h m inputs).1.
Proof.
  induction inputs as [| i rest IH]; intros m scheduled Hp; simpl.
  - eapply placed_weaken; [| exact Hp]. by left.
  - assert (Hstep : placed cfg (scheduled ∨ i = ScheduleFire) (step h m i).1).
    { destruct i as [net | |]; simpl.
      - eapply placed_weaken; [by left |].
        eapply placed_sameHealth; [apply check_sameHealth |].
        by apply placed_observe.
      - eapply placed_weaken; [| by eapply placed_scheduledSwitch].
        by right.
      - unfold placed, restore in *; simpl.
        destruct Hp as (Hc & _). rewrite Hc. split_and!; [done | done |].
        by left. }
    eapply placed_weaken; [| exact (IH _ _ Hstep)].
    intros [[? | ->] | ?]; [by left | right; apply elem_of_cons; by left |].
    right. apply elem_of_cons. by right.
Qed.

(** X2. Whatever ticks, schedule fires and restores a fresh monitor goes
    through, its configuration stays the one it was started with; while Down
    its current IP is the backup IP; while Normal its current IP is the
    primary IP, unless a schedule fire took place, and then it is the
    primary, the backup or the explicit switch-to IP. *)
Theorem currentIP_placed (h : Hooks) (cfg : MonitorConfig) (inputs : list Input) :
  let m := (run h (newMonitor cfg) inputs).1 in
  Config m = cfg
  ∧ (Status_ m = StatusDown → CurrentIP m = BackupIP cfg)
  ∧ (Status_ m = StatusNormal →
       CurrentIP m = OriginalIP cfg
       ∨ (ScheduleFire ∈ inputs
          ∧ (CurrentIP m = BackupIP cfg ∨ CurrentIP m = ScheduleSwitchIP cfg))).
Proof.
  intros m. subst m.
  assert (Hstart : placed cfg False (newMonitor cfg)).
  { unfold placed; simpl. split_and!; [done | done | by left]. }
  pose proof (placed_run cfg h inputs _ _ Hstart) as (Hc & Hd & Hn).
  split_and!; [done | done |].
  intros Hs. destruct (Hn Hs) as [? | [[[] | ?] ?]]; [by left | right; done].
Qed.

Lemma currentIP_placed_witness :
  let m := (run allHooks (newMonitor (sampleConfig 1 1))
              [Tick netAllDown; Tick netPrimaryUp; ScheduleFire]).1 in
  Status_ m = StatusNormal ∧ CurrentIP m = "192.0.2.2".
Proof.
  intros m.
  destruct (currentIP_placed allHooks (sampleConfig 1 1)
              [Tick netAllDown; Tick netPrimaryUp; ScheduleFire])
    as (_ & _ & Hn).
  split; [vm_compute; reflexivity |].
  destruct (Hn ltac:(vm_compute; reflexivity)) as [Ho | [_ [Hb | Hx]]].
  - vm_compute in Ho. discriminate Ho.
  - exact Hb.
  - vm_compute in Hx. discriminate Hx.
Defined.

(** ** No failover without enough failures in a row *)

Lemma failureRun_ge cur outcomes : (cur ≤ failureRun cur outcomes)%nat.
Proof.
  revert cur. induction outcomes as [| [] rest IH]; intros cur; simpl.
  - lia.
  - lia.
  - specialize (IH (S cur)). lia.
Qed.

Lemma short_runs_stay_normal h cfg :
  1 ≤ FailureThreshold cfg ≤ int_max →
  ∀ outcomes m (k : nat),
    Config m = cfg → Status_ m = StatusNormal → FailCount m = Z.of_nat k →
    Z.of_nat (failureRun k outcomes) < FailureThreshold cfg →
    Status_ (feed h m outcomes) = StatusNormal
    ∧ CurrentIP (feed h m outcomes) = CurrentIP m
    ∧ feedEvents h m outcomes = [].
Proof.
  intros HT. induction outcomes as [| ok rest IH]; intros m k Hc Hs Hf Hrun;
    simpl in *; [done |].
  unfold observe at 1 2 3 4. destruct ok.
  - unfold handleSuccess. rewrite Hs. simpl.
    apply (IH (set_FailCount 0 m) 0%nat); simpl; try done. lia.
  - pose proof (failureRun_ge (S k) rest) as Hge.
    unfold handleFailure. rewrite Hs. simpl. rewrite Hf, Hc.
    rewrite int_incr_small by (unfold int_min, int_max in *; lia).
    rewrite decide_False by lia. simpl.
    destruct (IH (set_FailCount (Z.of_nat k + 1) m) (S k)) as (H1 & H2 & H3);
      simpl; try done; lia.
Qed.

(** X3. With a failure threshold of at least 1, a fresh monitor fed outcomes
    whose longest run of failures in a row is shorter than the threshold
    never leaves Normal: it ends Normal, on the primary IP, and no hook was
    called on the way. *)
Theorem no_failover_on_short_runs (h : Hooks) (cfg : MonitorConfig)
    (outcomes : list bool) :
  1 ≤ FailureThreshold cfg ≤ int_max →
  Z.of_nat (failureRun 0 outcomes) < FailureThreshold cfg →
  Status_ (feed h (newMonitor cfg) outcomes) = StatusNormal
  ∧ CurrentIP (feed h (newMonitor cfg) outcomes) = OriginalIP cfg
  ∧ feedEvents h (newMonitor cfg) outcomes = [].
Proof.
  intros HT Hrun.
  apply (short_runs_stay_normal h cfg HT outcomes (newMonitor cfg) 0%nat);
    done.
Qed.

Lemma no_failover_on_short_runs_witness :
  let outcomes := [false; false; true; false; true; false; false] in
  Status_ (feed allHooks (newMonitor (sampleConfig 3 2)) outcomes) = StatusNormal
  ∧ CurrentIP (feed allHooks (newMonitor (sampleConfig 3 2)) outcomes)
    = "192.0.2.1"
  ∧ feedEvents allHooks (newMonitor (sampleConfig 3 2)) outcomes = [].
Proof.
  apply (no_failover_on_short_runs allHooks (sampleConfig 3 2)); vm_compute;
    try split; congruence.
Defined.

(** X4. With a failure threshold of at least 1 and the failover hook bound,
    outcomes that contain as many failures in a row as the threshold make a
    fresh monitor call the hook, and its first call announces a failover. *)
Theorem failover_on_long_run (h : Hooks) (cfg : MonitorConfig)
    (outcomes : list bool) :
  1 ≤ FailureThreshold cfg ≤ int_max →
  OnSwitch h = true →
  FailureThreshold cfg ≤ Z.of_nat (failureRun 0 outcomes) →
  ∃ later, switchCalls (feedEvents h (newMonitor cfg) outcomes) = true :: later.
Proof.
  intros HT Hhook.
  assert (Hgen : ∀ outcomes m (k : nat),
    Config m = cfg → Status_ m = StatusNormal → FailCount m = Z.of_nat k →
    Z.of_nat k < FailureThreshold cfg →
    FailureThreshold cfg ≤ Z.of_nat (failureRun k outcomes) →
    ∃ later, switchCalls (feedEvents h m outcomes) = true :: later).
  { clear outcomes.
    induction outcomes as [| ok rest IH]; intros m k Hc Hs Hf Hk Hrun;
      simpl in *; [lia |].
    unfold observe at 1 2. destruct ok.
    - unfold handleSuccess. rewrite Hs. simpl.
      apply (IH (set_FailCount 0 m) 0%nat); simpl; try done; lia.
    - unfold handleFailure, fireIPDown, fireSwitch. rewrite Hs. simpl.
      rewrite Hf, Hc, Hhook.
      rewrite int_incr_small by (unfold int_min, int_max in *; lia).
      case_decide; simpl.
      + rewrite switchCalls_app. destruct (OnIPDown h); simpl; eauto.
      + apply (IH (set_FailCount (Z.of_nat k + 1) m) (S k)); simpl;
          try done; lia. }
  intros Hrun. apply (Hgen outcomes (newMonitor cfg) 0%nat); simpl; try done.
  lia.
Qed.

Lemma failover_on_long_run_witness :
  ∃ later,
    switchCalls (feedEvents allHooks (newMonitor (sampleConfig 3 2))
                   [false; true; false; false; false; true; true])
    = true :: later.
Proof.
  apply (failover_on_long_run allHooks (sampleConfig 3 2)); vm_compute;
    try split; congruence.
Defined.

(** ** The order in which the failover hook's calls are issued *)

Lemma switchCalls_unbound h m inputs :
  OnSwitch h = false → switchCalls (run h m inputs).2 = [].
Proof.
  intros Hh. revert m. induction inputs as [| i rest IH]; intros m; simpl;
    [done |].
  rewrite switchCalls_app, IH, app_nil_r.
  destruct i as [net | |]; simpl.
  - rewrite switchCalls_check.
    unfold observe, handleSuccess, handleFailure, fireSwitch, fireIPDown.
    rewrite Hh.
    destruct (runCheck _ _ _), (Status_ m); simpl; try done;
      case_decide; simpl; try done; by destruct (OnIPDown h).
  - unfold scheduledSwitch, fireScheduledSwitch.
    repeat case_decide; simpl; try done. by destruct (OnScheduledSwitch h).
  - done.
Qed.

(** What one outcome adds to the calls of a bound failover hook. *)
Lemma switchCalls_observe h m ok :
  OnSwitch h = true →
  switchCalls (observe h m ok).2
  = if decide (Status_ (observe h m ok).1 = Status_ m) then []
    else [bool_decide (Status_ (observe h m ok).1 = StatusDown)].
Proof.
  intros Hh.
  unfold observe, handleSuccess, handleFailure, fireSwitch, fireIPDown.
  rewrite Hh.
  destruct ok, (Status_ m) eqn:Hs; simpl; rewrite ?Hs; try done;
    case_decide; simpl; rewrite ?Hs; try done.
  by destruct (OnIPDown h).
Qed.

Lemma switchCalls_scheduledSwitch h m :
  switchCalls (scheduledSwitch h m).2 = []
  ∧ Status_ (scheduledSwitch h m).1 = Status_ m.
Proof.
  unfold scheduledSwitch, fireScheduledSwitch.
  repeat case_decide; simpl; try done. by destruct (OnScheduledSwitch h).
Qed.

(** What one input adds to the calls of a bound failover hook: nothing if the
    status stays or the input is a restore, else the new status. *)
Lemma switchCalls_step h m i :
  OnSwitch h = true →
  switchCalls (step h m i).2
  = if decide (Status_ (step h m i).1 = Status_ m ∨ isRestore i = true) then []
    else [bool_decide (Status_ (step h m i).1 = StatusDown)].
Proof.
  intros Hh. destruct i as [net | |]; simpl.
  - rewrite switchCalls_check, switchCalls_observe by done.
    destruct (check_sameHealth h net m) as (_ & -> & _).
    case_decide.
    + by rewrite decide_True by auto.
    + rewrite decide_False; [done |]. intros [? | ?]; done.
  - destruct (switchCalls_scheduledSwitch h m) as [-> ->].
    by rewrite decide_True by auto.
  - by rewrite decide_True by auto.
Qed.

Lemma restoresFollowFailovers_weaken l :
  restoresFollowFailovers false l → restoresFollowFailovers true l.
Proof. destruct l as [| b rest]; simpl; [done |]. intros [_ ?]. done. Qed.

Lemma calls_in_order h inputs : ∀ m,
  OnSwitch h = true →
  restoresFollowFailovers (bool_decide (Status_ m = StatusDown))
    (switchCalls (run h m inputs).2)
  ∧ (Restore ∉ inputs →
       alternating (bool_decide (Status_ m = StatusNormal))
         (switchCalls (run h m inputs).2)).
Proof.
  induction inputs as [| i rest IH]; intros m Hh; simpl; [done |].
  rewrite switchCalls_app, switchCalls_step by done.
  destruct (IH (step h m i).1 Hh) as [IH1 IH2].
  split.
  - destruct (decide (Status_ (step h m i).1 = Status_ m ∨ isRestore i = true))
      as [Hcase | Hcase]; simpl.
    + destruct Hcase as [He | Hr]; [by rewrite He in IH1 |].
      destruct i; try done. simpl in *.
      destruct (Status_ m); simpl in *; [done |].
      by apply restoresFollowFailovers_weaken.
    + split; [| done].
      destruct (Status_ m), (Status_ (step h m i).1); simpl; done || tauto.
  - intros Hno.
    assert (Hi : isRestore i = false).
    { destruct i; try done. exfalso. apply Hno, elem_of_cons. by left. }
    assert (Hrest : Restore ∉ rest)
      by (intros ?; apply Hno, elem_of_cons; by right).
    specialize (IH2 Hrest).
    destruct (decide (Status_ (step h m i).1 = Status_ m ∨ isRestore i = true))
      as [Hcase | Hcase]; simpl.
    + destruct Hcase as [He | ?]; [by rewrite He in IH2 | congruence].
    + destruct (Status_ m), (Status_ (step h m i).1); simpl in *;
        done || tauto.
Qed.

(** X5. The order in which the calls of the failover hook are issued for a
    fresh monitor, that is, in which its [go e.OnSwitch(m, ...)] statements
    are executed: a restore (toBackup = false) is only ever issued right
    after a failover (toBackup = true), and the first call issued is a
    failover. When no ForceRestore comes in between, failovers and restores
    are issued in strict alternation. In which order the callbacks then run,
    each on its own goroutine, is not part of the statement. *)
Theorem switch_calls_in_order (h : Hooks) (cfg : MonitorConfig)
    (inputs : list Input) :
  restoresFollowFailovers false
    (switchCalls (run h (newMonitor cfg) inputs).2)
  ∧ (Restore ∉ inputs →
       alternating true (switchCalls (run h (newMonitor cfg) inputs).2)).
Proof.
  destruct (OnSwitch h) eqn:Hh.
  - apply (calls_in_order h inputs (newMonitor cfg) Hh).
  - by rewrite switchCalls_unbound.
Qed.

Lemma switch_calls_in_order_witness :
  alternating true
    (switchCalls (run allHooks (newMonitor (sampleConfig 1 1))
                    [Tick netAllDown; Tick netPrimaryUp; ScheduleFire;
                     Tick netAllDown]).2)
  ∧ switchCalls (run allHooks (newMonitor (sampleConfig 1 1))
                   [Tick netAllDown; Tick netPrimaryUp; ScheduleFire;
                    Tick netAllDown]).2 = [true; false; true].
Proof.
  split; [| vm_compute; reflexivity].
  apply (switch_calls_in_order allHooks (sampleConfig 1 1)).
  intros Hin. repeat (apply elem_of_cons in Hin as [Hin | Hin]; [done |]).
  by apply elem_of_nil in Hin.
Defined.

(** ** A scheduled switch with an explicit target *)

(** X6. With an explicit switch-to IP configured, the scheduled switch is
    idempotent: a fire leaves a Normal monitor on that IP, and a second fire
    right after the first changes nothing and calls nothing. *)
Theorem scheduledSwitch_explicit_idempotent (h : Hooks) (m : Monitor) :
  ScheduleSwitchIP (Config m) ≠ "" →
  scheduledSwitch h (scheduledSwitch h m).1 = ((scheduledSwitch h m).1, [])
  ∧ (Status_ m = StatusNormal →
       CurrentIP (scheduledSwitch h m).1 = ScheduleSwitchIP (Config m)).
Proof.
  intros Hx.
  assert (Ht : ∀ m', Config m' = Config m →
                     scheduleTarget m' = ScheduleSwitchIP (Config m)).
  { intros m' Hc. unfold scheduleTarget. rewrite Hc. by rewrite decide_True. }
  assert (Hnoop : ∀ m', Config m' = Config m →
            Status_ m' = StatusDown ∨ CurrentIP m' = ScheduleSwitchIP (Config m) →
            scheduledSwitch h m' = (m', [])).
  { intros m' Hc Hor. unfold scheduledSwitch. rewrite (Ht m' Hc).
    case_decide; [done |]. rewrite decide_True; [done |].
    right. destruct Hor; [done | congruence]. }
  unfold scheduledSwitch at 2 3 4. rewrite (Ht m eq_refl).
  destruct (decide (Status_ m = StatusDown)) as [Hd | Hn]; simpl.
  - split; [apply Hnoop; auto | intros Hs; congruence].
  - case_decide as Hsame; simpl.
    + destruct Hsame as [? | Hsame]; [done |].
      split; [apply Hnoop; auto | done].
    + split; [apply Hnoop; simpl; auto | done].
Qed.

Lemma scheduledSwitch_explicit_idempotent_witness :
  let cfg := mkMonitorConfig "m3" "web" "zone" ["www"] "ping" "" "192.0.2.1"
               "192.0.2.2" 3 2 0 0 0 false false true 6 "192.0.2.9" in
  CurrentIP (scheduledSwitch allHooks (newMonitor cfg)).1 = "192.0.2.9"
  ∧ scheduledSwitch allHooks (scheduledSwitch allHooks (newMonitor cfg)).1
    = ((scheduledSwitch allHooks (newMonitor cfg)).1, []).
Proof.
  intros cfg.
  destruct (scheduledSwitch_explicit_idempotent allHooks (newMonitor cfg)
              ltac:(vm_compute; congruence)) as [H1 H2].
  split; [apply H2; reflexivity | exact H1].
Defined.

(** ** A check that needs a target and has none *)

Lemma feed_failures_down h n : ∀ m,
  Status_ m = StatusDown → Status_ (feed h m (replicate n false)) = StatusDown.
Proof.
  induction n as [| n IH]; intros m Hs; simpl; [done |].
  apply IH. unfold observe, handleFailure. by rewrite Hs.
Qed.

Lemma feed_failures h cfg :
  1 ≤ FailureThreshold cfg ≤ int_max →
  ∀ (n : nat) m,
    Config m = cfg → Status_ m = StatusNormal →
    0 ≤ FailCount m < FailureThreshold cfg →
    Status_ (feed h m (replicate n false))
    = if decide (FailCount m + Z.of_nat n < FailureThreshold cfg)
      then StatusNormal else StatusDown.
Proof.
  intros HT. induction n as [| n IH]; intros m Hc Hs Hf; simpl.
  - by rewrite decide_True by lia.
  - unfold observe, handleFailure. rewrite Hs. simpl. rewrite Hc.
    rewrite int_incr_small by (unfold int_min, int_max in *; lia).
    destruct (decide (FailureThreshold cfg ≤ FailCount m + 1)) as [Hthr | Hthr];
      simpl.
    + rewrite feed_failures_down by done. by rewrite decide_False by lia.
    + rewrite IH by (simpl; done || lia). simpl.
      destruct (decide (FailCount m + 1 + Z.of_nat n < FailureThreshold cfg)).
      * by rewrite decide_True by lia.
      * by rewrite decide_False by lia.
Qed.

(** X7. The HTTP and TCP checks do not fall back to the primary IP when no
    check target is configured, they fail. So a fresh monitor of check type
    "http", "https" or "tcping" with an empty check target and a failure
    threshold of at least 1 is Normal for its first threshold - 1 ticks and
    Down from then on, whatever the network answers. *)
Theorem targetless_check_goes_down (h : Hooks) (cfg : MonitorConfig)
    (nets : list Net) :
  CheckType cfg = "http" ∨ CheckType cfg = "https" ∨ CheckType cfg = "tcping" →
  CheckTarget cfg = "" →
  1 ≤ FailureThreshold cfg ≤ int_max →
  probeOutcomes cfg nets = replicate (length nets) false
  ∧ Status_ (run h (newMonitor cfg) (map Tick nets)).1
    = if decide (Z.of_nat (length nets) < FailureThreshold cfg)
      then StatusNormal else StatusDown.
Proof.
  intros Hty Htg HT.
  assert (Hout : probeOutcomes cfg nets = replicate (length nets) false).
  { unfold probeOutcomes. induction nets as [| net nets IH]; simpl; [done |].
    rewrite IH. f_equal.
    destruct Hty as [Hty | [Hty | Hty]]; rewrite Hty; vm_compute selectCheck;
      simpl; unfold checkHTTP, checkTCP; simpl; by rewrite Htg. }
  split; [done |].
  assert (Hsame : sameHealth (newMonitor cfg) (newMonitor cfg))
    by (unfold sameHealth; done).
  destruct (ticks_as_feed_gen h nets _ _ Hsame) as [(_ & -> & _) _].
  simpl. rewrite Hout.
  rewrite (feed_failures h cfg HT) by (simpl; done || lia).
  simpl. by rewrite Z.add_0_l.
Qed.

Lemma targetless_check_goes_down_witness :
  let cfg := mkMonitorConfig "m4" "site" "zone" ["www"] "https" "" "192.0.2.1"
               "192.0.2.2" 2 1 0 0 0 false false false 0 "" in
  Status_ (run allHooks (newMonitor cfg)
             (map Tick [netPrimaryUp; netPrimaryUp; netPrimaryUp])).1
  = StatusDown.
Proof.
  intros cfg.
  destruct (targetless_check_goes_down allHooks cfg
              [netPrimaryUp; netPrimaryUp; netPrimaryUp]
              ltac:(vm_compute; auto) ltac:(vm_compute; reflexivity)
              ltac:(vm_compute; split; congruence)) as [_ H].
  exact H.
Defined.

(** ** When the backup alert goes out *)

Lemma deadFor_config m m' net :
  Config m' = Config m → deadFor m net → deadFor m' net.
Proof.
  intros Hc [H1 H2]. unfold deadFor, watchdogPing in *. rewrite Hc.
  split; [| done]. by rewrite (runCheck_config _ net m' m Hc).
Qed.

Lemma backupThreshold_pos m : 1 ≤ backupThreshold m.
Proof. unfold backupThreshold. case_decide; lia. Qed.

(** The watchdog on an unhealthy answer. *)
Lemma checkBackupHealth_unhealthy h net m :
  watchdogActive m →
  watchdogPing net m = RunError ∨ watchdogPing net m = Statistics false →
  checkBackupHealth h net m
  = (if bool_decide (backupThreshold m ≤ int_incr (BackupFailCount m))
        && negb (BackupDown m)
     then set_BackupFailCount 0 (set_BackupDown true m)
     else set_BackupFailCount (int_incr (BackupFailCount m)) m,
     BackupProbed (BackupIP (Config m))
       :: (if bool_decide (backupThreshold m ≤ int_incr (BackupFailCount m))
              && negb (BackupDown m)
           then fireIPDown h m (BackupIP (Config m)) "backup" else [])).
Proof.
  intros (Hs & Ht & Hip) Hb. unfold checkBackupHealth.
  rewrite shouldCheck_open by done. simpl.
  unfold watchdogPing in Hb.
  destruct Hb as [-> | ->]; destruct (_ && _); done.
Qed.

(** A tick on which neither the primary nor the backup answers, for a
    monitor that is Down with the watchdog running. *)
Lemma dead_tick h m net :
  watchdogActive m → deadFor m net →
  let r := check h net m in
  Config r.1 = Config m ∧ Status_ r.1 = StatusDown
  ∧ (BackupDown m = true → BackupDown r.1 = true ∧ backupAlerts r.2 = 0%nat)
  ∧ (BackupDown m = false →
     0 ≤ BackupFailCount m → BackupFailCount m < int_max →
       if decide (backupThreshold m ≤ BackupFailCount m + 1)
       then BackupDown r.1 = true
            ∧ backupAlerts r.2 = (if OnIPDown h then 1 else 0)%nat
       else BackupDown r.1 = false
            ∧ BackupFailCount r.1 = BackupFailCount m + 1
            ∧ backupAlerts r.2 = 0%nat).
Proof.
  intros Hact [Hp Hb] r. subst r. pose proof Hact as (Hs & Ht & Hip).
  unfold check. rewrite Hp. unfold observe, handleFailure. rewrite Hs. simpl.
  rewrite (checkBackupHealth_unhealthy h net (set_SuccCount 0 m)) by done.
  change (backupThreshold (set_SuccCount 0 m)) with (backupThreshold m).
  unfold fireIPDown. simpl.
  destruct (BackupDown m) eqn:Hbd; rewrite ?andb_false_r, ?andb_true_r; simpl.
  - split_and!; try done.
  - split_and!; try done; try (by case_bool_decide).
    intros _ H0 Hmax.
    rewrite int_incr_small by (unfold int_min, int_max in *; lia).
    case_decide.
    + rewrite bool_decide_eq_true_2 by done. simpl.
      split; [done |]. by destruct (OnIPDown h).
    + rewrite bool_decide_eq_false_2 by done. simpl. done.
Qed.

Lemma dead_run h nets : ∀ m,
  watchdogActive m → backupThreshold m ≤ int_max → OnIPDown h = true →
  Forall (deadFor m) nets →
  (BackupDown m = true → backupAlerts (run h m (map Tick nets)).2 = 0%nat)
  ∧ (BackupDown m = false →
     0 ≤ BackupFailCount m < backupThreshold m →
       backupAlerts (run h m (map Tick nets)).2
       = if decide (BackupFailCount m + Z.of_nat (length nets)
                    < backupThreshold m)
         then 0%nat else 1%nat).
Proof.
  induction nets as [| net nets IH]; intros m Hact Hmax Hh Hdead; simpl.
  - split; [done |]. intros _ Hk. by rewrite decide_True by lia.
  - apply Forall_cons in Hdead as [Hnet Hrest].
    pose proof (dead_tick h m net Hact Hnet) as (Hc & Hs & Hd & Hu).
    assert (Hact' : watchdogActive (check h net m).1).
    { destruct Hact as (_ & ? & ?). unfold watchdogActive. by rewrite Hc. }
    assert (Hthr : backupThreshold (check h net m).1 = backupThreshold m)
      by (unfold backupThreshold; by rewrite Hc).
    assert (Hrest' : Forall (deadFor (check h net m).1) nets).
    { eapply Forall_impl; [exact Hrest |]. intros n' ?.
      by apply (deadFor_config m). }
    destruct (IH (check h net m).1 Hact' ltac:(by rewrite Hthr) Hh Hrest')
      as [IHd IHu].
    rewrite backupAlerts_app. split.
    + intros Hbd. destruct (Hd Hbd) as [Hbd' ->]. by rewrite IHd.
    + intros Hbd Hk. specialize (Hu Hbd ltac:(lia) ltac:(lia)).
      rewrite Hh in Hu. rewrite Hthr in IHu.
      destruct (decide (backupThreshold m ≤ BackupFailCount m + 1)).
      * destruct Hu as [Hbd' ->]. rewrite IHd by done.
        by rewrite decide_False by lia.
      * destruct Hu as (Hbd' & Hcnt & ->). rewrite IHu by (done || lia).
        rewrite Hcnt. simpl.
        destruct (decide (BackupFailCount m + 1 + Z.of_nat (length nets)
                          < backupThreshold m)).
        -- by rewrite decide_True by lia.
        -- by rewrite decide_False by lia.
Qed.

(** X8. While a monitor is Down with the watchdog running and the
    endpoint-down hook bound, and neither the primary nor the backup
    answers: starting from a cleared watchdog, no backup alert goes out
    during the first (defaulted) failure threshold - 1 ticks, and exactly
    one has gone out from the tick that reaches the threshold on, however
    many dead ticks follow. *)
Theorem backup_alert_at_threshold (h : Hooks) (m : Monitor) (nets : list Net) :
  watchdogActive m →
  BackupDown m = false → BackupFailCount m = 0 →
  backupThreshold m ≤ int_max →
  OnIPDown h = true →
  Forall (deadFor m) nets →
  backupAlerts (run h m (map Tick nets)).2
  = if decide (Z.of_nat (length nets) < backupThreshold m)
    then 0%nat else 1%nat.
Proof.
  intros Hact Hbd Hcnt Hmax Hh Hdead.
  destruct (dead_run h nets m Hact Hmax Hh Hdead) as [_ Hu].
  pose proof (backupThreshold_pos m).
  rewrite Hu by (done || lia). by rewrite Hcnt, Z.add_0_l.
Qed.

Lemma backup_alert_at_threshold_witness :
  let m := mkMonitor (sampleConfig 0 1) StatusDown "192.0.2.2" 0 0 0 false in
  backupAlerts (run allHooks m (map Tick (replicate 2 netAllDown))).2 = 0%nat
  ∧ backupAlerts (run allHooks m (map Tick (replicate 5 netAllDown))).2 = 1%nat.
Proof.
  intros m.
  assert (Hdead : ∀ n, Forall (deadFor m) (replicate n netAllDown)).
  { intros n. apply Forall_forall. intros net Hin.
    apply elem_of_replicate in Hin as [-> _]. vm_compute. auto. }
  split.
  - apply (backup_alert_at_threshold allHooks m (replicate 2 netAllDown));
      try apply Hdead; vm_compute; try done; repeat split; congruence.
  - apply (backup_alert_at_threshold allHooks m (replicate 5 netAllDown));
      try apply Hdead; vm_compute; try done; repeat split; congruence.
Defined.

(** ** The registry stays consistent *)

Lemma check_config h net m : Config (check h net m).1 = Config m.
Proof.
  destruct (check_sameHealth h net m) as (-> & _).
  apply (observe_backup_fields h m _).
Qed.

Lemma scheduledSwitch_config h m : Config (scheduledSwitch h m).1 = Config m.
Proof. apply (scheduledSwitch_backup_fields h m). Qed.

Lemma consistent_new h : consistent (mkEngine ∅ h ∅ [] [] ∅ []).
Proof.
  unfold consistent; simpl. split_and!.
  - intros id. rewrite !lookup_empty. done.
  - intros id l Hl. by rewrite lookup_empty in Hl.
  - intros id c Hc. by rewrite lookup_empty in Hc.
  - intros c Hc. set_solver.
  - intros id id' l Hl. by rewrite lookup_empty in Hl.
  - intros id id' c Hc. by rewrite lookup_empty in Hc.
Qed.

(** Overwriting an object by one of the same configuration. *)
Lemma consistent_update e l m m' :
  heap e !! l = Some m → Config m' = Config m → consistent e →
  consistent (mkEngine (Monitors e) (callbacks e) (cancels e)
                       (<[l := m']> (heap e)) (parents e) (cancelled e)
                       (spawned e)).
Proof.
  intros Hl Hc (H1 & H2 & H3 & H4 & H5 & H6).
  unfold consistent; simpl. split_and!; try done.
  intros id l0 Hreg. destruct (H2 id l0 Hreg) as (m0 & Hm0 & Hid).
  destruct (decide (l0 = l)) as [-> | Hne].
  - exists m'. split.
    + rewrite list_lookup_insert_eq; [done |]. by eapply lookup_lt_Some.
    + rewrite Hc. congruence.
  - exists m0. by rewrite list_lookup_insert_ne.
Qed.

Lemma consistent_onMonitor e l f :
  (∀ m, Config (f m).1 = Config m) → consistent e →
  consistent (onMonitor l f e).1.
Proof.
  intros Hf Hcons. unfold onMonitor.
  destruct (heap e !! l) as [m |] eqn:Hl; [| done].
  specialize (Hf m). destruct (f m) as [m' ev]; simpl in *.
  by eapply consistent_update.
Qed.

Lemma consistent_ForceRestore id e :
  consistent e → consistent (ForceRestore id e).2.
Proof.
  intros Hcons. unfold ForceRestore.
  destruct (Monitors e !! id) as [l |]; [| done].
  destruct (heap e !! l) as [m |] eqn:Hl; [| done]. simpl.
  by eapply consistent_update.
Qed.

Lemma consistent_StartMonitor ctx cfg e :
  consistent e → consistent (StartMonitor ctx cfg e).
Proof.
  intros (H1 & H2 & H3 & H4 & H5 & H6).
  assert (Hfresh : ∀ id l, Monitors e !! id = Some l → (l < length (heap e))%nat).
  { intros id l Hl. destruct (H2 id l Hl) as (m & Hm & _).
    by eapply lookup_lt_Some. }
  unfold consistent, StartMonitor; simpl. split_and!.
  - intros id. destruct (decide (ID cfg = id)) as [<- | Hne].
    + rewrite !lookup_insert_eq. split; eauto.
    + rewrite !lookup_insert_ne by done. apply H1.
  - intros id l. destruct (decide (ID cfg = id)) as [<- | Hne].
    + rewrite lookup_insert_eq. intros [= <-].
      exists (newMonitor cfg). split; [| done].
      by rewrite lookup_app_r, Nat.sub_diag.
    + rewrite lookup_insert_ne by done. intros Hl.
      destruct (H2 id l Hl) as (m & Hm & Hid). exists m. split; [| done].
      rewrite lookup_app_l; [done |]. by eapply lookup_lt_Some.
  - intros id c. rewrite length_app. simpl.
    destruct (decide (ID cfg = id)) as [<- | Hne].
    + rewrite lookup_insert_eq. intros [= <-]. split; [lia |].
      destruct (cancels e !! ID cfg) as [c0 |] eqn:Hc0.
      * destruct (H3 _ _ Hc0) as [Hlt _].
        intros [Hin | Hin]%elem_of_union.
        -- apply elem_of_singleton in Hin. lia.
        -- apply H4 in Hin. lia.
      * intros Hin. apply H4 in Hin. lia.
    + rewrite lookup_insert_ne by done. intros Hc.
      destruct (H3 _ _ Hc) as [Hlt Hnin]. split; [lia |].
      destruct (cancels e !! ID cfg) as [c0 |] eqn:Hc0; [| done].
      intros [Hin | Hin]%elem_of_union; [| done].
      apply elem_of_singleton in Hin. subst c0.
      apply Hne. by eapply H6.
  - intros c. rewrite length_app. simpl.
    destruct (cancels e !! ID cfg) as [c0 |] eqn:Hc0.
    + intros [Hin | Hin]%elem_of_union.
      * apply elem_of_singleton in Hin. subst c0.
        destruct (H3 _ _ Hc0). lia.
      * apply H4 in Hin. lia.
    + intros Hin. apply H4 in Hin. lia.
  - intros id id' l.
    destruct (decide (ID cfg = id)) as [<- | Hne],
             (decide (ID cfg = id')) as [<- | Hne']; try done.
    + rewrite lookup_insert_eq, lookup_insert_ne by done.
      intros [= <-] Hl. apply Hfresh in Hl. lia.
    + rewrite lookup_insert_eq, lookup_insert_ne by done.
      intros Hl [= <-]. apply Hfresh in Hl. lia.
    + rewrite !lookup_insert_ne by done. apply H5.
  - intros id id' c.
    destruct (decide (ID cfg = id)) as [<- | Hne],
             (decide (ID cfg = id')) as [<- | Hne']; try done.
    + rewrite lookup_insert_eq, lookup_insert_ne by done.
      intros [= <-] Hc. destruct (H3 _ _ Hc). lia.
    + rewrite lookup_insert_eq, lookup_insert_ne by done.
      intros Hc [= <-]. destruct (H3 _ _ Hc). lia.
    + rewrite !lookup_insert_ne by done. apply H6.
Qed.

Lemma consistent_StopMonitor id e :
  consistent e → consistent (StopMonitor id e).
Proof.
  intros (H1 & H2 & H3 & H4 & H5 & H6). unfold StopMonitor.
  destruct (cancels e !! id) as [c |] eqn:Hc; [| done].
  unfold consistent; simpl. split_and!.
  - intros id'. destruct (decide (id = id')) as [<- | Hne].
    + rewrite !lookup_delete_eq. split; intros [? ?]; done.
    + rewrite !lookup_delete_ne by done. apply H1.
  - intros id' l. destruct (decide (id = id')) as [<- | Hne].
    + by rewrite lookup_delete_eq.
    + rewrite lookup_delete_ne by done. apply H2.
  - intros id' c'. destruct (decide (id = id')) as [<- | Hne].
    + by rewrite lookup_delete_eq.
    + rewrite lookup_delete_ne by done. intros Hc'.
      destruct (H3 _ _ Hc') as [Hlt Hnin]. split; [done |].
      intros [Hin | Hin]%elem_of_union; [| done].
      apply elem_of_singleton in Hin. subst c'. apply Hne. by eapply H6.
  - intros c' [Hin | Hin]%elem_of_union; [| by apply H4].
    apply elem_of_singleton in Hin. subst c'. by destruct (H3 _ _ Hc).
  - intros id1 id2 l.
    destruct (decide (id = id1)) as [<- | Hne1]; [by rewrite lookup_delete_eq |].
    destruct (decide (id = id2)) as [<- | Hne2]; [by rewrite lookup_delete_eq |].
    rewrite !lookup_delete_ne by done. apply H5.
  - intros id1 id2 c'.
    destruct (decide (id = id1)) as [<- | Hne1]; [by rewrite lookup_delete_eq |].
    destruct (decide (id = id2)) as [<- | Hne2]; [by rewrite lookup_delete_eq |].
    rewrite !lookup_delete_ne by done. apply H6.
Qed.

Lemma consistent_applyOp op e : consistent e → consistent (applyOp op e).
Proof.
  intros Hcons. destruct op; simpl.
  - by apply consistent_StartMonitor.
  - by apply consistent_StopMonitor.
  - by apply consistent_ForceRestore.
  - apply consistent_onMonitor; [| done]. intros m. apply check_config.
  - apply consistent_onMonitor; [| done]. intros m. apply scheduledSwitch_config.
Qed.

Lemma engineReachable_consistent e : engineReachable e → consistent e.
Proof.
  induction 1 as [h | e op _ IH].
  - apply consistent_new.
  - by apply consistent_applyOp.
Qed.

Lemma downEngine_reachable : engineReachable downEngine.
Proof.
  change downEngine with
    (applyOp (OpTick 0 netAllDown)
       (applyOp (OpTick 0 netAllDown)
          (applyOp (OpStart Background (sampleConfig 1 1))
             (mkEngine ∅ allHooks ∅ [] [] ∅ [])))).
  do 3 apply engineReachable_step. apply engineReachable_new.
Qed.

Lemma twoEngine_reachable : engineReachable twoEngine.
Proof.
  change twoEngine with
    (applyOp (OpStart Background noPrimaryConfig) downEngine).
  apply engineReachable_step, downEngine_reachable.
Qed.

(** X9. In every engine a program can reach, a registered id leads to a live
    monitor object that was made for that id and has its cancel function
    registered too; hence ForceRestore answers ok = true exactly for the
    registered ids. *)
Theorem registered_monitor_is_live (e : Engine) (id : string) :
  engineReachable e →
  (((ForceRestore id e).1).2 = true ↔ is_Some (Monitors e !! id))
  ∧ (∀ l, Monitors e !! id = Some l →
       ∃ m, heap e !! l = Some m ∧ monitorOf e id = Some m
            ∧ ID (Config m) = id ∧ is_Some (cancels e !! id)).
Proof.
  intros Hr. pose proof (engineReachable_consistent e Hr) as (H1 & H2 & _).
  split.
  - unfold ForceRestore. destruct (Monitors e !! id) as [l |] eqn:Hl.
    + destruct (H2 id l Hl) as (m & -> & _). simpl. split; eauto.
    + simpl. split; [done | by intros [? ?]].
  - intros l Hl. destruct (H2 id l Hl) as (m & Hm & Hid).
    exists m. unfold monitorOf. rewrite Hl. simpl. split_and!; try done.
    apply H1. eauto.
Qed.

Lemma registered_monitor_is_live_witness :
  ((ForceRestore "m2" twoEngine).1).2 = true
  ∧ ((ForceRestore "m7" twoEngine).1).2 ≠ true.
Proof.
  split.
  - apply (registered_monitor_is_live twoEngine "m2" twoEngine_reachable).
    vm_compute. eauto.
  - intros H.
    apply (registered_monitor_is_live twoEngine "m7" twoEngine_reachable) in H.
    vm_compute in H. by destruct H.
Defined.

(** X10. The registry operations touch only the id they are called for. For
    every id registered in a reachable engine, the cancel function
    registered for it has not been called; any operation that is not a
    start or a stop of that very id keeps its pointer and its cancel
    function registered and does not call that function; nor do two ids
    ever share a context. This is about the two maps and the cancel
    functions only: whether a loop goes on running depends also on its
    parent context and on the process, which are left out here. *)
Theorem other_ids_stay_registered (e : Engine) (op : Op) (id : string)
    (c : nat) :
  engineReachable e →
  cancels e !! id = Some c →
  ¬ targets op id →
  (c ∉ cancelled e)
  ∧ cancels (applyOp op e) !! id = Some c
  ∧ Monitors (applyOp op e) !! id = Monitors e !! id
  ∧ (c ∉ cancelled (applyOp op e))
  ∧ (∀ id', cancels (applyOp op e) !! id' = Some c → id' = id).
Proof.
  intros Hr Hc Hnt.
  pose proof (engineReachable_consistent e Hr) as (_ & _ & H3 & _).
  assert (Hr' : engineReachable (applyOp op e)) by by apply engineReachable_step.
  pose proof (engineReachable_consistent _ Hr') as (_ & _ & H3' & _ & _ & H6').
  assert (Hkeep : cancels (applyOp op e) !! id = Some c
                  ∧ Monitors (applyOp op e) !! id = Monitors e !! id).
  { destruct op as [ctx cfg | id0 | id0 | l net | l]; simpl in *.
    - by rewrite !lookup_insert_ne.
    - unfold StopMonitor. destruct (cancels e !! id0); [| done]. simpl.
      by rewrite !lookup_delete_ne.
    - unfold ForceRestore. destruct (Monitors e !! id0); [| done].
      by destruct (heap e !! n).
    - unfold tickAt, onMonitor. destruct (heap e !! l); [| done].
      by destruct (check _ _ _).
    - unfold scheduleAt, onMonitor. destruct (heap e !! l); [| done].
      by destruct (scheduledSwitch _ _). }
  destruct Hkeep as [Hc' Hm'].
  split_and!; try done.
  - by destruct (H3 _ _ Hc).
  - by destruct (H3' _ _ Hc').
  - intros id' Hid'. by eapply H6'.
Qed.

Lemma other_ids_stay_registered_witness :
  cancels (StopMonitor "m2" twoEngine) !! "m1" = Some 0%nat
  ∧ 0%nat ∉ cancelled (StopMonitor "m2" twoEngine).
Proof.
  destruct (other_ids_stay_registered twoEngine (OpStop "m2") "m1" 0
              twoEngine_reachable ltac:(vm_compute; reflexivity)
              ltac:(simpl; congruence)) as (_ & H1 & _ & H2 & _).
  split; [exact H1 | exact H2].
Defined.

(** X11. StopMonitor on a reachable engine: afterwards the id is registered
    in neither map, ForceRestore on it answers ("", false) and changes
    nothing, and the context that was registered for it is cancelled; every
    monitor object is as before, those of the other ids are still
    registered; and for an id that was not registered the call changes
    nothing at all. *)
Theorem StopMonitor_unregisters (e : Engine) (id : string) :
  engineReachable e →
  let e' := StopMonitor id e in
  Monitors e' !! id = None
  ∧ cancels e' !! id = None
  ∧ ForceRestore id e' = (("", false), e')
  ∧ (∀ c, cancels e !! id = Some c → c ∈ cancelled e')
  ∧ heap e' = heap e
  ∧ (∀ id', id' ≠ id → monitorOf e' id' = monitorOf e id')
  ∧ (Monitors e !! id = None → e' = e).
Proof.
  intros Hr e'. subst e'.
  pose proof (engineReachable_consistent e Hr) as Hcons.
  destruct Hcons as [H1 Hcons].
  assert (Hm : Monitors (StopMonitor id e) !! id = None).
  { unfold StopMonitor. destruct (cancels e !! id) as [c |] eqn:Hc; simpl.
    - apply lookup_delete_eq.
    - destruct (Monitors e !! id) eqn:Hl; [| done].
      assert (is_Some (cancels e !! id)) as [? ?] by (apply H1; eauto).
      congruence. }
  split_and!.
  - done.
  - unfold StopMonitor. destruct (cancels e !! id) as [c |] eqn:Hc; simpl;
      [apply lookup_delete_eq | done].
  - unfold ForceRestore. by rewrite Hm.
  - intros c Hc. unfold StopMonitor. rewrite Hc. simpl.
    apply elem_of_union. left. by apply elem_of_singleton.
  - unfold StopMonitor. by destruct (cancels e !! id).
  - intros id' Hne. unfold StopMonitor, monitorOf.
    destruct (cancels e !! id); [| done]. simpl.
    by rewrite lookup_delete_ne.
  - intros Hnone. unfold StopMonitor.
    destruct (cancels e !! id) as [c |] eqn:Hc; [| done].
    assert (is_Some (Monitors e !! id)) as [? ?] by (apply H1; eauto).
    congruence.
Qed.

Lemma StopMonitor_unregisters_witness :
  ForceRestore "m1" (StopMonitor "m1" twoEngine)
  = (("", false), StopMonitor "m1" twoEngine)
  ∧ 0%nat ∈ cancelled (StopMonitor "m1" twoEngine)
  ∧ monitorOf (StopMonitor "m1" twoEngine) "m2" = Some (newMonitor noPrimaryConfig).
Proof.
  destruct (StopMonitor_unregisters twoEngine "m1" twoEngine_reachable)
    as (_ & _ & H1 & H2 & _ & H3 & _).
  split_and!.
  - exact H1.
  - apply H2. vm_compute. reflexivity.
  - rewrite H3 by done. vm_compute. reflexivity.
Defined.

(** ** The status listing *)

Lemma GetStatus_ids e :
  consistent e → row_id <$> GetStatus e = (map_to_list (Monitors e)).*1.
Proof.
  intros (_ & H2 & _). unfold GetStatus.
  assert (Hall : ∀ kv, kv ∈ map_to_list (Monitors e) →
            ∃ m, heap e !! kv.2 = Some m ∧ ID (Config m) = kv.1).
  { intros [id l] Hin. apply elem_of_map_to_list in Hin. by apply H2. }
  induction (map_to_list (Monitors e)) as [| kv kvs IH]; simpl; [done |].
  destruct (Hall kv) as (m & Hm & Hid); [apply elem_of_cons; by left |].
  rewrite Hm. simpl. rewrite Hid. f_equal.
  apply IH. intros kv' Hin. apply Hall, elem_of_cons. by right.
Qed.

(** X12. On a reachable engine the status listing has exactly one entry per
    registered monitor: as many entries as registered ids, no id twice, each
    entry the snapshot of a registered monitor and each registered monitor
    listed, under the id it is registered with. *)
Theorem GetStatus_lists_registry (e : Engine) :
  engineReachable e →
  length (GetStatus e) = size (Monitors e)
  ∧ NoDup (row_id <$> GetStatus e)
  ∧ (∀ row, row ∈ GetStatus e ↔
            ∃ id m, monitorOf e id = Some m ∧ row = rowOf m)
  ∧ (∀ id m, monitorOf e id = Some m → row_id (rowOf m) = id).
Proof.
  intros Hr. pose proof (engineReachable_consistent e Hr) as Hcons.
  pose proof (GetStatus_ids e Hcons) as Hids.
  destruct Hcons as (_ & H2 & _).
  split_and!.
  - rewrite <- (length_fmap row_id), Hids, length_fmap.
    apply length_map_to_list.
  - rewrite Hids. apply NoDup_fst_map_to_list.
  - intros row. unfold GetStatus. rewrite list_elem_of_omap. split.
    + intros ([id l] & Hin & Hrow). apply elem_of_map_to_list in Hin.
      simpl in Hrow. destruct (heap e !! l) as [m |] eqn:Hm; [| done].
      injection Hrow as <-. exists id, m. unfold monitorOf.
      rewrite Hin. simpl. done.
    + intros (id & m & Hm & ->). unfold monitorOf in Hm.
      destruct (Monitors e !! id) as [l |] eqn:Hl; [| done]. simpl in Hm.
      exists (id, l). split; [by apply elem_of_map_to_list |].
      simpl. by rewrite Hm.
  - intros id m Hm. unfold monitorOf in Hm.
    destruct (Monitors e !! id) as [l |] eqn:Hl; [| done]. simpl in Hm.
    destruct (H2 id l Hl) as (m' & Hm' & Hid). simpl. congruence.
Qed.

Lemma GetStatus_lists_registry_witness :
  length (GetStatus twoEngine) = 2%nat
  ∧ rowOf (mkMonitor (sampleConfig 1 1) StatusDown "192.0.2.2" 0 0 1 true)
    ∈ GetStatus twoEngine.
Proof.
  destruct (GetStatus_lists_registry twoEngine twoEngine_reachable)
    as (Hlen & _ & Hin & _).
  split.
  - rewrite Hlen. vm_compute. reflexivity.
  - apply Hin.
    exists "m1", (mkMonitor (sampleConfig 1 1) StatusDown "192.0.2.2" 0 0 1 true).
    split; [vm_compute |]; reflexivity.
Defined.

(** * Properties of the store *)

(** ** Looking items up by key *)

Section ByKey.
Context {A K : Type} `{EqDecision K} (key : A → K).

Lemma indexOfKey_cons id x l :
  indexOfKey key id (x :: l)
  = if decide (key x = id) then Some 0%nat else S <$> indexOfKey key id l.
Proof.
  unfold indexOfKey, firstIndex. simpl.
  destruct (decide (key x = id)) as [He | Hne].
  - rewrite decide_True by (by apply bool_decide_eq_true_2). done.
  - rewrite decide_False by (by rewrite bool_decide_eq_true).
    by destruct (list_find _ l) as [[i y] |].
Qed.

Lemma getByKey_cons id x l :
  getByKey key id (x :: l)
  = if decide (key x = id) then Some x else getByKey key id l.
Proof.
  unfold getByKey. rewrite indexOfKey_cons.
  destruct (decide (key x = id)); [done |].
  by destruct (indexOfKey key id l).
Qed.

Lemma indexOfKey_Some id l i :
  indexOfKey key id l = Some i →
  ∃ x, l !! i = Some x ∧ key x = id ∧ getByKey key id l = Some x.
Proof.
  intros Hi. unfold getByKey. rewrite Hi. revert i Hi.
  induction l as [| y l IH]; intros i; rewrite ?indexOfKey_cons; [done |].
  destruct (decide (key y = id)) as [He | Hne].
  - intros [= <-]. eauto.
  - destruct (indexOfKey key id l) as [j |]; [| done].
    intros [= <-]. by apply IH.
Qed.

Lemma indexOfKey_None id l :
  indexOfKey key id l = None ↔ id ∉ key <$> l.
Proof.
  induction l as [| y l IH]; rewrite ?indexOfKey_cons; simpl.
  - split; [intros _; apply not_elem_of_nil | done].
  - rewrite not_elem_of_cons. destruct (decide (key y = id)) as [He | Hne].
    + split; [done | intros [? _]; congruence].
    + destruct (indexOfKey key id l); simpl.
      * split; [done |]. intros [_ Hnin]. by apply IH in Hnin.
      * split; [| done]. intros _. split; [congruence | by apply IH].
Qed.

Lemma getByKey_None id l : getByKey key id l = None ↔ id ∉ key <$> l.
Proof.
  rewrite <- indexOfKey_None. unfold getByKey.
  destruct (indexOfKey key id l) as [i |] eqn:Hi; [| done].
  destruct (indexOfKey_Some id l i Hi) as (x & -> & _). done.
Qed.

Lemma getByKey_Some id l x :
  getByKey key id l = Some x → key x = id ∧ x ∈ l.
Proof.
  induction l as [| y l IH]; rewrite ?getByKey_cons; [done |].
  destruct (decide (key y = id)) as [He | Hne].
  - intros [= <-]. split; [done | apply elem_of_cons; by left].
  - intros Hx. destruct (IH Hx). split; [done | apply elem_of_cons; by right].
Qed.

(** Replacing the first item of a key by another item of that key. *)
Lemma getByKey_replace m l i id :
  indexOfKey key (key m) l = Some i →
  getByKey key id (<[i := m]> l)
  = if decide (key m = id) then Some m else getByKey key id l.
Proof.
  revert i. induction l as [| y l IH]; intros i;
    rewrite ?indexOfKey_cons; [done |].
  destruct (decide (key y = key m)) as [He | Hne].
  - intros [= <-]. simpl. rewrite !getByKey_cons.
    destruct (decide (key m = id)) as [Hm | Hm].
    + done.
    + by rewrite decide_False by congruence.
  - destruct (indexOfKey key (key m) l) as [j |] eqn:Hj; [| done].
    intros [= <-]. simpl. rewrite !getByKey_cons, (IH j) by done.
    destruct (decide (key y = id)) as [Hy | Hy]; [| done].
    by rewrite decide_False by congruence.
Qed.

Lemma keys_replace m (l : list A) i :
  indexOfKey key (key m) l = Some i → key <$> <[i := m]> l = key <$> l.
Proof.
  intros Hi. destruct (indexOfKey_Some _ _ _ Hi) as (x & Hx & Hk & _).
  rewrite list_fmap_insert. apply list_insert_id.
  rewrite list_lookup_fmap, Hx. simpl. by rewrite Hk.
Qed.

(** Appending an item whose key is new. *)
Lemma getByKey_append m l id :
  indexOfKey key (key m) l = None →
  getByKey key id (l ++ [m])
  = if decide (key m = id) then Some m else getByKey key id l.
Proof.
  induction l as [| y l IH]; rewrite ?indexOfKey_cons; simpl.
  - intros _. rewrite getByKey_cons. by destruct (decide (key m = id)).
  - destruct (decide (key y = key m)) as [He | Hne]; [done |].
    destruct (indexOfKey key (key m) l) eqn:Hl; [done |]. intros _.
    rewrite !getByKey_cons, IH by done.
    destruct (decide (key y = id)) as [Hy | Hy]; [| done].
    by rewrite decide_False by congruence.
Qed.

(** Deleting the first item of a key. *)
Lemma getByKey_delete_other id0 l i id :
  indexOfKey key id0 l = Some i → id ≠ id0 →
  getByKey key id (delete i l) = getByKey key id l.
Proof.
  intros Hi Hne. revert i Hi.
  induction l as [| y l IH]; intros i; rewrite ?indexOfKey_cons; [done |].
  destruct (decide (key y = id0)) as [He | Hny].
  - intros [= <-]. simpl. rewrite getByKey_cons.
    by rewrite decide_False by congruence.
  - destruct (indexOfKey key id0 l) as [j |] eqn:Hj; [| done].
    intros [= <-]. simpl. rewrite !getByKey_cons, (IH j) by done. done.
Qed.

Lemma keys_delete (l : list A) (i : nat) :
  key <$> delete i l = delete i (key <$> l).
Proof.
  revert i. induction l as [| y l IH]; intros [| i]; simpl; try done.
  by rewrite IH.
Qed.

Lemma getByKey_delete_same id l i :
  indexOfKey key id l = Some i → NoDup (key <$> l) →
  getByKey key id (delete i l) = None.
Proof.
  revert i. induction l as [| y l IH]; intros i;
    rewrite ?indexOfKey_cons; [done |].
  rewrite fmap_cons, NoDup_cons.
  destruct (decide (key y = id)) as [He | Hny].
  - intros [= <-] [Hnin _]. simpl. apply getByKey_None. by rewrite <- He.
  - destruct (indexOfKey key id l) as [j |] eqn:Hj; [| done].
    intros [= <-] [_ Hnd]. simpl. rewrite getByKey_cons.
    rewrite decide_False by done. by apply IH.
Qed.

End ByKey.

(** ** Monitor definitions in the store *)

Lemma GetMonitor_getByKey id s :
  Store.GetMonitor id s = getByKey ID id (Store.Monitors (Store.data s)).
Proof.
  unfold Store.GetMonitor, Store.cloneMonitorConfig.
  by destruct (getByKey ID id _).
Qed.

(** X13. UpsertMonitor then GetMonitor: the id of the upserted definition
    now yields exactly that definition, every other id yields what it did
    before; a definition is replaced in place when its id was there and
    appended when it was not, so ids that were distinct stay distinct. The
    change is made in memory whatever the write of the file returns, and the
    returned error is that of the write. *)
Theorem UpsertMonitor_GetMonitor (disk : Store.Disk) (m : MonitorConfig)
    (s : Store.t) (id : string) :
  let r := Store.UpsertMonitor disk m s in
  Store.GetMonitor id r.1
  = (if decide (ID m = id) then Some m else Store.GetMonitor id s)
  ∧ length (Store.Monitors (Store.data r.1))
    = (if decide (is_Some (Store.GetMonitor (ID m) s))
       then length (Store.Monitors (Store.data s))
       else S (length (Store.Monitors (Store.data s))))
  ∧ (NoDup (ID <$> Store.Monitors (Store.data s)) →
       NoDup (ID <$> Store.Monitors (Store.data r.1)))
  ∧ r.2 = disk (Store.path s) (Store.data r.1).
Proof.
  intros r. subst r. rewrite !GetMonitor_getByKey.
  unfold Store.UpsertMonitor, Store.saveLocked.
  destruct (indexOfKey ID (ID m) (Store.Monitors (Store.data s))) as [i |] eqn:Hi;
    simpl.
  - destruct (indexOfKey_Some ID _ _ _ Hi) as (x & Hx & Hk & Hget).
    rewrite Hget, length_insert.
    destruct (decide (is_Some (Some x))) as [_ | Hn]; [| by destruct Hn].
    split_and!; try done.
    + by apply getByKey_replace.
    + by rewrite keys_replace.
  - assert (Hget : getByKey ID (ID m) (Store.Monitors (Store.data s)) = None).
    { apply getByKey_None. by apply (indexOfKey_None ID). }
    rewrite Hget, length_app.
    destruct (decide (is_Some (@None MonitorConfig))) as [[? ?] | _]; [done |].
    simpl. split_and!; try done.
    + by apply getByKey_append.
    + lia.
    + intros Hnd. rewrite fmap_app. simpl.
      apply NoDup_app. split_and!; [done | | apply NoDup_singleton].
      intros k Hk Hin. apply list_elem_of_singleton in Hin. subst k.
      by apply (indexOfKey_None ID) in Hi.
Qed.

Lemma UpsertMonitor_GetMonitor_witness :
  let s1 := (Store.UpsertMonitor (λ _ _, None) (sampleConfig 3 2)
               (Store.NewStore "data.json")).1 in
  let s2 := (Store.UpsertMonitor (λ _ _, Some "disk full") (sampleConfig 5 5)
               s1).1 in
  Store.GetMonitor "m1" s2 = Some (sampleConfig 5 5)
  ∧ length (Store.Monitors (Store.data s2)) = 1%nat.
Proof.
  intros s1 s2. subst s2.
  destruct (UpsertMonitor_GetMonitor (λ _ _, Some "disk full")
              (sampleConfig 5 5) s1 "m1") as (H1 & H2 & _).
  split; [exact H1 |]. rewrite H2. vm_compute. reflexivity.
Defined.

(** X14. DeleteMonitor removes the first definition with the id and nothing
    else: every other id yields what it did before, an id that is not there
    leaves the store as it is, and when the ids in the store are distinct
    the deleted id yields nothing afterwards. *)
Theorem DeleteMonitor_GetMonitor (disk : Store.Disk) (id : string)
    (s : Store.t) :
  let r := Store.DeleteMonitor disk id s in
  (∀ id', id' ≠ id → Store.GetMonitor id' r.1 = Store.GetMonitor id' s)
  ∧ (Store.GetMonitor id s = None → r.1 = s)
  ∧ (is_Some (Store.GetMonitor id s) →
       S (length (Store.Monitors (Store.data r.1)))
       = length (Store.Monitors (Store.data s)))
  ∧ (NoDup (ID <$> Store.Monitors (Store.data s)) →
       Store.GetMonitor id r.1 = None
       ∧ NoDup (ID <$> Store.Monitors (Store.data r.1)))
  ∧ r.2 = disk (Store.path s) (Store.data r.1).
Proof.
  intros r. subst r. setoid_rewrite GetMonitor_getByKey.
  unfold Store.DeleteMonitor, Store.saveLocked.
  destruct (indexOfKey ID id (Store.Monitors (Store.data s))) as [i |] eqn:Hi;
    simpl.
  - destruct (indexOfKey_Some ID _ _ _ Hi) as (x & Hx & Hk & Hget).
    rewrite Hget. split_and!; try done.
    + intros id' Hne. by apply (getByKey_delete_other ID id).
    + intros _. rewrite length_delete by eauto.
      apply lookup_lt_Some in Hx. lia.
    + intros Hnd. split.
      * by apply getByKey_delete_same.
      * rewrite keys_delete. eapply sublist_NoDup; [exact Hnd |].
        apply sublist_delete.
  - assert (Hget : getByKey ID id (Store.Monitors (Store.data s)) = None).
    { apply getByKey_None. by apply (indexOfKey_None ID). }
    rewrite Hget. split_and!; done.
Qed.

Lemma DeleteMonitor_GetMonitor_witness :
  let s1 := (Store.UpsertMonitor (λ _ _, None) (sampleConfig 3 2)
               (Store.NewStore "data.json")).1 in
  let s2 := (Store.UpsertMonitor (λ _ _, None) noPrimaryConfig s1).1 in
  Store.GetMonitor "m1" (Store.DeleteMonitor (λ _ _, None) "m1" s2).1 = None
  ∧ Store.GetMonitor "m2" (Store.DeleteMonitor (λ _ _, None) "m1" s2).1
    = Some noPrimaryConfig.
Proof.
  intros s1 s2.
  destruct (DeleteMonitor_GetMonitor (λ _ _, None) "m1" s2)
    as (H1 & _ & _ & H2 & _).
  split.
  - apply H2. vm_compute. apply NoDup_cons. split.
    + intros Hin. apply list_elem_of_singleton in Hin. discriminate Hin.
    + apply NoDup_singleton.
  - rewrite H1 by done. vm_compute. reflexivity.
Defined.

(** ** The two event logs *)

Section Logs.
Context {A : Type}.
Implicit Types (x : A) (items out : list A).

Lemma appendCapped_suffix x max items :
  appendCapped x max items `suffix_of` items ++ [x].
Proof.
  unfold appendCapped. case_decide; [apply suffix_drop | done].
Qed.

Lemma appendCapped_length x max items :
  length (appendCapped x max items)
  = if decide (0 < max) then Nat.min (Z.to_nat max) (S (length items))
    else S (length items).
Proof.
  unfold appendCapped. rewrite length_app. simpl.
  repeat case_decide; rewrite ?length_drop, ?length_app; simpl; lia.
Qed.

Lemma appendCapped_last x max items :
  last (appendCapped x max items) = Some x.
Proof.
  unfold appendCapped. case_decide as Hcap; [| apply last_snoc].
  rewrite length_app in *. simpl in *.
  rewrite drop_app_le by lia. apply last_snoc.
Qed.

Lemma collectNewest_spec items limit (n : nat) : ∀ out,
  (n ≤ length items)%nat →
  collectNewest items limit n out
  = out ++ take (Z.to_nat (limit - Z.of_nat (length out)))
                (reverse (take n items)).
Proof.
  induction n as [| i IH]; intros out Hn; simpl.
  - by rewrite take_0, reverse_nil, take_nil, app_nil_r.
  - destruct (lookup_lt_is_Some_2 items i ltac:(lia)) as [x Hx].
    rewrite Hx, (take_S_r _ _ _ Hx), reverse_snoc.
    case_decide as Hlim.
    + rewrite IH by lia. rewrite length_app. simpl.
      replace (Z.to_nat (limit - Z.of_nat (length out)))
        with (S (Z.to_nat (limit - Z.of_nat (length out + 1)%nat))) by lia.
      simpl. by rewrite <- app_assoc.
    + replace (Z.to_nat (limit - Z.of_nat (length out))) with 0%nat by lia.
      by rewrite take_0, app_nil_r.
Qed.

Lemma listNewest_spec limit items :
  listNewest limit items
  = if decide (limit ≤ 0 ∨ Z.of_nat (length items) < limit)
    then reverse items else take (Z.to_nat limit) (reverse items).
Proof.
  unfold listNewest. rewrite collectNewest_spec by done. simpl.
  rewrite firstn_all, Z.sub_0_r.
  case_decide; [| done].
  rewrite Nat2Z.id. apply take_ge. by rewrite length_reverse.
Qed.

Lemma listNewest_head limit items x :
  last items = Some x → head (listNewest limit items) = Some x.
Proof.
  intros Hlast. rewrite listNewest_spec.
  destruct items as [| y items _] using rev_ind; [done |].
  rewrite last_snoc in Hlast. injection Hlast as ->.
  rewrite reverse_snoc. case_decide as Hlim; [done |].
  destruct (Z.to_nat limit) eqn:Hl; [lia | done].
Qed.

End Logs.

(** X15. Both event logs are capped: appending with a positive cap keeps
    only the newest events, at most as many as the cap, and appending with a
    cap of 0 or less keeps them all; either way what is kept is the tail of
    the old log followed by the new event, the new event last. *)
Theorem event_logs_capped (disk : Store.Disk) (max : Z) (s : Store.t)
    (sw : SwitchEvent.t) (down : IPDownEvent.t) :
  let history := Store.History (Store.data (Store.AppendSwitchEvent disk sw max s).1) in
  let ipDown := Store.IPDown (Store.data (Store.AppendIPDownEvent disk down max s).1) in
  (history `suffix_of` Store.History (Store.data s) ++ [sw]
   ∧ last history = Some sw
   ∧ length history
     = (if decide (0 < max)
        then Nat.min (Z.to_nat max) (S (length (Store.History (Store.data s))))
        else S (length (Store.History (Store.data s)))))
  ∧ (ipDown `suffix_of` Store.IPDown (Store.data s) ++ [down]
     ∧ last ipDown = Some down
     ∧ length ipDown
       = (if decide (0 < max)
          then Nat.min (Z.to_nat max) (S (length (Store.IPDown (Store.data s))))
          else S (length (Store.IPDown (Store.data s))))).
Proof.
  simpl. split; split_and!;
    auto using appendCapped_suffix, appendCapped_last, appendCapped_length.
Qed.

(** X16. Both listings give the newest events first: the whole log reversed
    when the limit is 0 or less or exceeds the length of the log, and
    otherwise its newest [limit] events, newest first. *)
Theorem event_listings_newest_first (limit : Z) (s : Store.t) :
  Store.ListSwitchHistory limit s
  = (if decide (limit ≤ 0
                ∨ Z.of_nat (length (Store.History (Store.data s))) < limit)
     then reverse (Store.History (Store.data s))
     else take (Z.to_nat limit) (reverse (Store.History (Store.data s))))
  ∧ Store.ListIPDownEvents limit s
    = (if decide (limit ≤ 0
                  ∨ Z.of_nat (length (Store.IPDown (Store.data s))) < limit)
       then reverse (Store.IPDown (Store.data s))
       else take (Z.to_nat limit) (reverse (Store.IPDown (Store.data s)))).
Proof. split; apply listNewest_spec. Qed.

(** X17. Whatever the cap and whatever the limit, the event just appended
    heads the next listing. *)
Theorem appended_event_listed_first (disk : Store.Disk) (max limit : Z)
    (s : Store.t) (sw : SwitchEvent.t) (down : IPDownEvent.t) :
  head (Store.ListSwitchHistory limit (Store.AppendSwitchEvent disk sw max s).1)
  = Some sw
  ∧ head (Store.ListIPDownEvents limit (Store.AppendIPDownEvent disk down max s).1)
    = Some down.
Proof.
  split; apply listNewest_head; simpl; apply appendCapped_last.
Qed.

(** ** Cloudflare accounts *)

Lemma int_wrap_small z : int_min ≤ z ≤ int_max → int_wrap z = z.
Proof.
  unfold int_wrap, int_min, int_max. intros Hz. rewrite Z.mod_small; lia.
Qed.

Lemma GetCloudflareConfig_active s :
  Store.GetCloudflareConfig s
  = match (if decide (0 ≤ Store.ActiveAccountIndex (Store.data s))
           then Store.CloudflareAccounts (Store.data s)
                  !! Z.to_nat (Store.ActiveAccountIndex (Store.data s))
           else None) with
    | Some a => credentialsOf a
    | None => Store.Cloudflare (Store.data s)
    end.
Proof.
  unfold Store.GetCloudflareConfig, credentialsOf.
  destruct (decide (0 ≤ Store.ActiveAccountIndex (Store.data s))) as [Hn | Hn].
  - case_decide as Hc.
    + done.
    + rewrite lookup_ge_None_2; [done |].
      destruct (Store.CloudflareAccounts (Store.data s)); simpl in *; lia.
  - rewrite decide_False; [done |]. tauto.
Qed.

(** X18. Deleting a Cloudflare account that is not the active one never
    changes the credentials in use: the active index is shifted along with
    the accounts behind the deleted one. Deleting the active account makes
    the first remaining account the active one, or falls back to the default
    credentials when none remains. *)
Theorem DeleteCloudflareAccount_credentials (disk : Store.Disk) (id : string)
    (s : Store.t) (i : nat) :
  indexOfKey CloudflareAccount.ID id (Store.CloudflareAccounts (Store.data s))
  = Some i →
  Store.ActiveAccountIndex (Store.data s) ≤ int_max →
  let s' := (Store.DeleteCloudflareAccount disk id s).1 in
  (Store.ActiveAccountIndex (Store.data s) ≠ Z.of_nat i →
     Store.GetCloudflareConfig s' = Store.GetCloudflareConfig s)
  ∧ (Store.ActiveAccountIndex (Store.data s) = Z.of_nat i →
       Store.GetCloudflareConfig s'
       = match delete i (Store.CloudflareAccounts (Store.data s)) with
         | a :: _ => credentialsOf a
         | [] => Store.Cloudflare (Store.data s)
         end).
Proof.
  intros Hi Hmax s'. subst s'.
  destruct (indexOfKey_Some _ _ _ _ Hi) as (x & Hx & _).
  pose proof (lookup_lt_Some _ _ _ Hx) as Hlt.
  rewrite !GetCloudflareConfig_active.
  unfold Store.DeleteCloudflareAccount. rewrite Hi. simpl.
  set (a := Store.ActiveAccountIndex (Store.data s)) in *.
  set (l := Store.CloudflareAccounts (Store.data s)) in *.
  split.
  - intros Hne. destruct (decide (a = Z.of_nat i)) as [? | _]; [done |].
    destruct (decide (Z.of_nat i < a)) as [Hgt | Hle].
    + rewrite int_wrap_small by (unfold int_min, int_max in *; lia).
      destruct (decide (0 ≤ a - 1)) as [_ | ?]; [| lia].
      destruct (decide (0 ≤ a)) as [_ | ?]; [| lia].
      rewrite list_lookup_delete_ge by lia.
      replace (S (Z.to_nat (a - 1))) with (Z.to_nat a) by lia. done.
    + destruct (decide (0 ≤ a)); [| done].
      by rewrite list_lookup_delete_lt by lia.
  - intros Heq. destruct (decide (a = Z.of_nat i)) as [_ | ?]; [| done].
    simpl. by destruct (delete i l).
Qed.

Lemma DeleteCloudflareAccount_credentials_witness :
  Store.GetCloudflareConfig (Store.DeleteCloudflareAccount (λ _ _, None) "a"
                               twoAccounts).1
  = credentialsOf accountB.
Proof.
  destruct (DeleteCloudflareAccount_credentials (λ _ _, None) "a" twoAccounts 0
              ltac:(vm_compute; reflexivity) ltac:(vm_compute; congruence))
    as [H _].
  rewrite H by (vm_compute; congruence). vm_compute. reflexivity.
Defined.

(** X19. Activating an account by id makes the credentials in use those of
    the first account with that id; activating an id that no account has
    changes nothing. *)
Theorem ActivateCloudflareAccount_credentials (disk : Store.Disk) (id : string)
    (s : Store.t) :
  let s' := (Store.ActivateCloudflareAccount disk id s).1 in
  match getByKey CloudflareAccount.ID id
          (Store.CloudflareAccounts (Store.data s)) with
  | Some a =>
      Store.GetCloudflareConfig s' = credentialsOf a
      ∧ Store.CloudflareAccounts (Store.data s')
        = Store.CloudflareAccounts (Store.data s)
  | None => s' = s
  end.
Proof.
  intros s'. subst s'. unfold Store.ActivateCloudflareAccount, getByKey.
  destruct (indexOfKey _ id _) as [i |] eqn:Hi; simpl; [| done].
  destruct (indexOfKey_Some _ _ _ _ Hi) as (x & Hx & _).
  rewrite Hx, GetCloudflareConfig_active. simpl.
  rewrite decide_True by lia. by rewrite Nat2Z.id, Hx.
Qed.

(** * Properties of the monitor handlers *)

Lemma GetMonitor_Upsert disk m s id :
  Store.GetMonitor id (Store.UpsertMonitor disk m s).1
  = if decide (ID m = id) then Some m else Store.GetMonitor id s.
Proof.
  rewrite !GetMonitor_getByKey. unfold Store.UpsertMonitor.
  destruct (indexOfKey ID (ID m) (Store.Monitors (Store.data s))) as [i |] eqn:Hi;
    simpl.
  - by apply getByKey_replace.
  - by apply getByKey_append.
Qed.

Lemma NoDup_Upsert disk m s :
  NoDup (ID <$> Store.Monitors (Store.data s)) →
  NoDup (ID <$> Store.Monitors (Store.data (Store.UpsertMonitor disk m s).1)).
Proof.
  intros Hnd. unfold Store.UpsertMonitor.
  destruct (indexOfKey ID (ID m) (Store.Monitors (Store.data s))) as [i |] eqn:Hi;
    simpl.
  - by rewrite keys_replace.
  - rewrite fmap_app. simpl.
    apply NoDup_app. split_and!; [done | | apply NoDup_singleton].
    intros k Hk Hin. apply list_elem_of_singleton in Hin. subst k.
    by apply (indexOfKey_None ID) in Hi.
Qed.

Lemma GetMonitor_Delete disk id s id' :
  NoDup (ID <$> Store.Monitors (Store.data s)) →
  Store.GetMonitor id' (Store.DeleteMonitor disk id s).1
  = (if decide (id = id') then None else Store.GetMonitor id' s)
  ∧ NoDup (ID <$> Store.Monitors (Store.data (Store.DeleteMonitor disk id s).1)).
Proof.
  intros Hnd. rewrite !GetMonitor_getByKey. unfold Store.DeleteMonitor.
  destruct (indexOfKey ID id (Store.Monitors (Store.data s))) as [i |] eqn:Hi;
    simpl.
  - split.
    + destruct (decide (id = id')) as [<- | Hne].
      * by apply getByKey_delete_same.
      * by apply (getByKey_delete_other ID id).
    + rewrite keys_delete. eapply sublist_NoDup; [exact Hnd |].
      apply sublist_delete.
  - split; [| done]. destruct (decide (id = id')) as [<- | Hne]; [| done].
    apply getByKey_None. by apply (indexOfKey_None ID).
Qed.

Lemma monitorOf_StartMonitor ctx m e id :
  consistent e →
  monitorOf (StartMonitor ctx m e) id
  = if decide (ID m = id) then Some (newMonitor m) else monitorOf e id.
Proof.
  intros (_ & H2 & _). unfold monitorOf, StartMonitor; simpl.
  destruct (decide (ID m = id)) as [<- | Hne].
  - rewrite lookup_insert_eq. simpl. by rewrite lookup_app_r, Nat.sub_diag.
  - rewrite lookup_insert_ne by done.
    destruct (Monitors e !! id) as [l |] eqn:Hl; [| done]. simpl.
    destruct (H2 id l Hl) as (m0 & Hm0 & _).
    rewrite lookup_app_l; [done |]. by eapply lookup_lt_Some.
Qed.

Lemma monitorOf_StopMonitor id e id' :
  consistent e →
  monitorOf (StopMonitor id e) id'
  = if decide (id = id') then None else monitorOf e id'.
Proof.
  intros (H1 & _). unfold monitorOf, StopMonitor.
  destruct (cancels e !! id) as [c |] eqn:Hc; simpl.
  - destruct (decide (id = id')) as [<- | Hne].
    + by rewrite lookup_delete_eq.
    + by rewrite lookup_delete_ne.
  - destruct (decide (id = id')) as [<- | Hne]; [| done].
    destruct (Monitors e !! id) as [l |] eqn:Hl; [| done].
    assert (is_Some (cancels e !! id)) as [? ?] by (apply H1; eauto).
    congruence.
Qed.

Lemma monitorOf_update e l m m' id :
  heap e !! l = Some m → Config m' = Config m →
  Config <$> monitorOf
               (mkEngine (Monitors e) (callbacks e) (cancels e)
                         (<[l := m']> (heap e)) (parents e) (cancelled e)
                         (spawned e)) id
  = Config <$> monitorOf e id.
Proof.
  intros Hl Hc. unfold monitorOf; simpl.
  destruct (Monitors e !! id) as [l0 |]; [| done]. simpl.
  destruct (decide (l0 = l)) as [-> | Hne].
  - rewrite list_lookup_insert_eq by (by eapply lookup_lt_Some).
    rewrite Hl. simpl. by rewrite Hc.
  - by rewrite list_lookup_insert_ne.
Qed.

Lemma monitorOf_keepsRegistry op e id :
  keepsRegistry op →
  Config <$> monitorOf (applyOp op e) id = Config <$> monitorOf e id.
Proof.
  destruct op as [ctx cfg | id0 | id0 | l net | l]; simpl; try done; intros _.
  - unfold ForceRestore. destruct (Monitors e !! id0) as [l |]; [| done].
    destruct (heap e !! l) as [m |] eqn:Hl; [| done]. simpl.
    by eapply monitorOf_update.
  - unfold tickAt, onMonitor. destruct (heap e !! l) as [m |] eqn:Hl; [| done].
    pose proof (check_config (callbacks e) net m) as Hc.
    destruct (check _ _ _) as [m' ev]; simpl in *.
    by eapply monitorOf_update.
  - unfold scheduleAt, onMonitor.
    destruct (heap e !! l) as [m |] eqn:Hl; [| done].
    pose proof (scheduledSwitch_config (callbacks e) m) as Hc.
    destruct (scheduledSwitch _ _) as [m' ev]; simpl in *.
    by eapply monitorOf_update.
Qed.

Lemma inStep_upsertAndStart rootCtx disk m sys :
  inStep sys →
  (Handler.upsertAndStart rootCtx disk m sys).1 ≠ 500 →
  inStep (Handler.upsertAndStart rootCtx disk m sys).2.
Proof.
  intros (Hcons & Hnd & Hsame). unfold Handler.upsertAndStart.
  pose proof (GetMonitor_Upsert disk m (store sys)) as Hget.
  pose proof (NoDup_Upsert disk m (store sys) Hnd) as Hnd'.
  destruct (Store.UpsertMonitor disk m (store sys)) as [st [err |]];
    simpl in *; [done |]. intros _.
  unfold inStep; simpl. split_and!.
  - by apply consistent_StartMonitor.
  - done.
  - intros id. rewrite monitorOf_StartMonitor, Hget by done.
    destruct (decide (ID m = id)); [done | apply Hsame].
Qed.

Lemma inStep_DeleteMonitor disk id sys :
  inStep sys →
  (Handler.DeleteMonitor disk id sys).1 ≠ 500 →
  inStep (Handler.DeleteMonitor disk id sys).2.
Proof.
  intros (Hcons & Hnd & Hsame). unfold Handler.DeleteMonitor.
  pose proof (λ id', GetMonitor_Delete disk id (store sys) id' Hnd) as Hget.
  destruct (Store.DeleteMonitor disk id (store sys)) as [st [err |]];
    simpl in *; [done |]. intros _.
  unfold inStep; simpl. split_and!.
  - by apply consistent_StopMonitor.
  - apply (Hget id).
  - intros id'. rewrite monitorOf_StopMonitor by done.
    destruct (Hget id') as [-> _].
    destruct (decide (id = id')); [done | apply Hsame].
Qed.

Lemma inStep_new path h :
  inStep (mkSystem (Store.NewStore path) (mkEngine ∅ h ∅ [] [] ∅ [])).
Proof.
  unfold inStep; simpl. split_and!.
  - apply consistent_new.
  - apply NoDup_nil_2.
  - intros id. unfold monitorOf; simpl. by rewrite lookup_empty.
Qed.

Lemma ID_defaultCheckType m : ID (Handler.defaultCheckType m) = ID m.
Proof. unfold Handler.defaultCheckType. by case_decide. Qed.

(** A handler is its store half followed by the engine call that is left. *)
Lemma serve_halves rootCtx disk req sys :
  serve rootCtx disk req sys
  = match (storeHalf rootCtx disk req (store sys)).2 with
    | inl code =>
        (code, mkSystem (storeHalf rootCtx disk req (store sys)).1 (engine sys))
    | inr op =>
        (200, mkSystem (storeHalf rootCtx disk req (store sys)).1
                       (applyOp op (engine sys)))
    end.
Proof.
  destruct sys as [st e].
  destruct req as [now [m |] | id [m |] | id];
    unfold serve, storeHalf, Handler.AddMonitor, Handler.UpdateMonitor,
      Handler.DeleteMonitor, Handler.upsertAndStart;
    cbn [store engine]; try done.
  - by destruct (Store.UpsertMonitor _ _ _) as [st' [err |]].
  - by destruct (Store.UpsertMonitor _ _ _) as [st' [err |]].
  - by destruct (Store.DeleteMonitor _ _ _) as [st' [err |]].
Qed.

Lemma inStep_serve rootCtx disk req sys :
  inStep sys →
  (serve rootCtx disk req sys).1 ≠ 500 →
  inStep (serve rootCtx disk req sys).2.
Proof.
  intros Hin. destruct req as [now [m |] | id [m |] | id]; simpl; try done.
  - by apply inStep_upsertAndStart.
  - by apply inStep_upsertAndStart.
  - by apply inStep_DeleteMonitor.
Qed.

Lemma inStep_applyOp op sys :
  inStep sys → keepsRegistry op →
  inStep (mkSystem (store sys) (applyOp op (engine sys))).
Proof.
  intros (Hcons & Hnd & Hsame) Hop. unfold inStep; simpl. split_and!.
  - by apply consistent_applyOp.
  - done.
  - intros id. rewrite monitorOf_keepsRegistry by done. apply Hsame.
Qed.

Lemma inStep_applyOps ops : ∀ sys,
  inStep sys → Forall keepsRegistry ops →
  inStep (mkSystem (store sys) (applyOps ops (engine sys))).
Proof.
  induction ops as [| op ops IH]; intros sys Hin Hops.
  - by destruct sys.
  - apply Forall_cons in Hops as [Hop Hops].
    apply (IH (mkSystem (store sys) (applyOp op (engine sys)))); [| done].
    by apply inStep_applyOp.
Qed.

Lemma upsertAndStart_ok rootCtx disk m sys :
  consistent (engine sys) →
  (Handler.upsertAndStart rootCtx disk m sys).1 = 200 →
  Store.GetMonitor (ID m) (store (Handler.upsertAndStart rootCtx disk m sys).2)
  = Some m
  ∧ monitorOf (engine (Handler.upsertAndStart rootCtx disk m sys).2) (ID m)
    = Some (newMonitor m).
Proof.
  intros Hcons. unfold Handler.upsertAndStart.
  pose proof (GetMonitor_Upsert disk m (store sys) (ID m)) as Hget.
  destruct (Store.UpsertMonitor disk m (store sys)) as [st [err |]];
    simpl in *; [done |]. intros _.
  rewrite monitorOf_StartMonitor by done.
  destruct (decide (ID m = ID m)); done.
Qed.

(** X20. Store and engine in step: the engine runs exactly the definitions
    the store holds (as a new engine beside a new store does). Requests
    served one at a time keep them in step: if they are in step, they still
    are after an add, update or delete request that is not answered 500 (a
    rejected body changes nothing), also when ticks, schedule fires and
    ForceRestores come between the store call and the engine call of the
    handler; and they still are after any tick, schedule fire or
    ForceRestore. An add answered 200 leaves the posted definition stored
    and started as a new monitor under its id, which is the clock reading
    if none was posted, with check type "ping" if none was posted. Requests
    that overlap need not keep them in step, the handler holding no lock
    between its two calls: when of two updates of one id the first to write
    the store is the last to start its monitor, both are answered 200, the
    store holds the second definition and the engine runs the first. *)
Theorem handlers_keep_in_step (rootCtx : Context) (disk : Store.Disk)
    (req : Request) (op : Op) (sys : System) :
  inStep sys →
  ((serve rootCtx disk req sys).1 ≠ 500 →
     inStep (serve rootCtx disk req sys).2)
  ∧ (∀ ops pending,
       Forall keepsRegistry ops →
       (storeHalf rootCtx disk req (store sys)).2 = inr pending →
       inStep (mkSystem (storeHalf rootCtx disk req (store sys)).1
                        (applyOp pending (applyOps ops (engine sys)))))
  ∧ (keepsRegistry op →
       inStep (mkSystem (store sys) (applyOp op (engine sys))))
  ∧ (∀ now m,
       req = ReqAdd now (Some m) →
       (serve rootCtx disk req sys).1 = 200 →
       let cfg :=
         Handler.defaultCheckType
           (if decide (ID m = "") then set_ID now m else m) in
       Store.GetMonitor (ID cfg) (store (serve rootCtx disk req sys).2)
       = Some cfg
       ∧ monitorOf (engine (serve rootCtx disk req sys).2) (ID cfg)
         = Some (newMonitor cfg)
       ∧ (ID m = "" → ID cfg = now)
       ∧ (ID m ≠ "" → ID cfg = ID m)
       ∧ (CheckType m = "" → CheckType cfg = "ping")
       ∧ (CheckType m ≠ "" → CheckType cfg = CheckType m))
  ∧ (∀ id m1 m2,
       let c1 := Handler.defaultCheckType (set_ID id m1) in
       let c2 := Handler.defaultCheckType (set_ID id m2) in
       let h1 := storeHalf rootCtx disk (ReqUpdate id (Some m1)) (store sys) in
       let h2 := storeHalf rootCtx disk (ReqUpdate id (Some m2)) h1.1 in
       let sys' :=
         mkSystem h2.1
           (StartMonitor rootCtx c1 (StartMonitor rootCtx c2 (engine sys))) in
       c1 ≠ c2 →
       h1.2 = inr (OpStart rootCtx c1) →
       h2.2 = inr (OpStart rootCtx c2) →
       Store.GetMonitor id (store sys') = Some c2
       ∧ Config <$> monitorOf (engine sys') id = Some c1
       ∧ ¬ inStep sys').
Proof.
  intros Hin. split_and!.
  - by apply inStep_serve.
  - intros ops pending Hops Hpending.
    pose proof (inStep_applyOps ops sys Hin Hops) as Hin'.
    pose proof (inStep_serve rootCtx disk req _ Hin') as Hserve.
    rewrite serve_halves in Hserve. simpl in Hserve.
    rewrite Hpending in Hserve. simpl in Hserve. by apply Hserve.
  - by apply inStep_applyOp.
  - intros now m -> H200 cfg. simpl in *.
    destruct Hin as (Hcons & _).
    destruct (upsertAndStart_ok rootCtx disk cfg sys Hcons H200) as [Hst Hen].
    split_and!; try done.
    + intros Hid. subst cfg. rewrite ID_defaultCheckType.
      by rewrite decide_True.
    + intros Hid. subst cfg. rewrite ID_defaultCheckType.
      by rewrite decide_False.
    + intros Hct. subst cfg. unfold Handler.defaultCheckType.
      destruct (decide (ID m = "")); simpl; by rewrite decide_True.
    + intros Hct. subst cfg. unfold Handler.defaultCheckType.
      destruct (decide (ID m = "")); simpl; by rewrite decide_False.
  - intros id m1 m2 c1 c2 h1 h2 sys' Hne _ _.
    destruct Hin as (Hcons & _).
    assert (Hid1 : ID c1 = id) by (subst c1; by rewrite ID_defaultCheckType).
    assert (Hid2 : ID c2 = id) by (subst c2; by rewrite ID_defaultCheckType).
    assert (Hst : Store.GetMonitor id (store sys') = Some c2).
    { change (store sys') with (Store.UpsertMonitor disk c2 h1.1).1.
      rewrite GetMonitor_Upsert. by destruct (decide (ID c2 = id)). }
    assert (Hen : Config <$> monitorOf (engine sys') id = Some c1).
    { change (engine sys')
        with (StartMonitor rootCtx c1 (StartMonitor rootCtx c2 (engine sys))).
      rewrite monitorOf_StartMonitor by by apply consistent_StartMonitor.
      by destruct (decide (ID c1 = id)). }
    split_and!; try done.
    intros (_ & _ & Hsame). specialize (Hsame id).
    rewrite Hst, Hen in Hsame. congruence.
Qed.

(** A definition posted without id and check type is stored and started
    under the clock reading, as a ping monitor. Then two updates of it
    overlap, the second one posting other thresholds: the store ends with
    the second definition, the engine with the first. *)
Lemma handlers_keep_in_step_witness :
  let id := "1700000000000000000" in
  let r := serve Background (λ _ _, None) (ReqAdd id (Some postedConfig))
             newSystem in
  let c1 := set_CheckType "ping" (set_ID id postedConfig) in
  let c2 := set_ID id (sampleConfig 5 5) in
  let h1 :=
    storeHalf Background (λ _ _, None) (ReqUpdate id (Some postedConfig))
      (store r.2) in
  let h2 :=
    storeHalf Background (λ _ _, None) (ReqUpdate id (Some (sampleConfig 5 5)))
      h1.1 in
  r.1 = 200
  ∧ inStep r.2
  ∧ monitorOf (engine r.2) id = Some (newMonitor c1)
  ∧ Store.GetMonitor id h2.1 = Some c2
  ∧ Config <$> monitorOf
                 (StartMonitor Background c1
                    (StartMonitor Background c2 (engine r.2))) id
    = Some c1.
Proof.
  intros id r c1 c2 h1 h2.
  destruct (handlers_keep_in_step Background (λ _ _, None)
              (ReqAdd id (Some postedConfig)) (OpSchedule 0)
              newSystem (inStep_new _ _)) as (Hserve & _ & _ & Hadd & _).
  assert (Hin : inStep r.2) by (apply Hserve; vm_compute; congruence).
  destruct (Hadd id postedConfig eq_refl ltac:(vm_compute; reflexivity))
    as (_ & Hmon & _).
  destruct (handlers_keep_in_step Background (λ _ _, None)
              (ReqAdd id (Some postedConfig)) (OpSchedule 0)
              r.2 Hin) as (_ & _ & _ & _ & Hover).
  destruct (Hover id postedConfig (sampleConfig 5 5)
              ltac:(vm_compute; congruence) ltac:(vm_compute; reflexivity)
              ltac:(vm_compute; reflexivity)) as (Hst & Hen & _).
  split; [vm_compute; reflexivity |].
  split; [exact Hin |].
  split; [exact Hmon |].
  split; [exact Hst | exact Hen].
Defined.

Lemma upsertAndStart_failed rootCtx disk m sys :
  (Handler.upsertAndStart rootCtx disk m sys).1 = 500 →
  engine (Handler.upsertAndStart rootCtx disk m sys).2 = engine sys
  ∧ Store.GetMonitor (ID m) (store (Handler.upsertAndStart rootCtx disk m sys).2)
    = Some m.
Proof.
  unfold Handler.upsertAndStart.
  pose proof (GetMonitor_Upsert disk m (store sys) (ID m)) as Hget.
  destruct (Store.UpsertMonitor disk m (store sys)) as [st [err |]];
    simpl in *; [| done].
  intros _. by rewrite decide_True in Hget.
Qed.

(** X21. A request answered 500 is one whose write of the file failed, and
    by then the store has already changed in memory while the engine has not
    been touched: after a failed add or update the store yields the new
    definition although no monitor was started for it, and after a failed
    delete (ids distinct) the store no longer yields the definition although
    its monitor, if there was one, keeps running. *)
Theorem failed_write_leaves_engine_behind (rootCtx : Context)
    (disk : Store.Disk) (req : Request) (sys : System) :
  (serve rootCtx disk req sys).1 = 500 →
  engine (serve rootCtx disk req sys).2 = engine sys
  ∧ match req with
    | ReqAdd now (Some m) =>
        let m' :=
          Handler.defaultCheckType
            (if decide (ID m = "") then set_ID now m else m) in
        Store.GetMonitor (ID m') (store (serve rootCtx disk req sys).2)
        = Some m'
    | ReqUpdate id (Some m) =>
        Store.GetMonitor id (store (serve rootCtx disk req sys).2)
        = Some (Handler.defaultCheckType (set_ID id m))
    | ReqDelete id =>
        NoDup (ID <$> Store.Monitors (Store.data (store sys))) →
        Store.GetMonitor id (store (serve rootCtx disk req sys).2) = None
    | _ => False
    end.
Proof.
  destruct req as [now [m |] | id [m |] | id]; simpl; try done.
  - apply upsertAndStart_failed.
  - intros H. destruct (upsertAndStart_failed _ _ _ _ H) as [He Hg].
    split; [done |]. by rewrite ID_defaultCheckType in Hg.
  - unfold Handler.DeleteMonitor.
    pose proof (λ Hnd, GetMonitor_Delete disk id (store sys) id Hnd) as Hget.
    destruct (Store.DeleteMonitor disk id (store sys)) as [st [err |]];
      simpl in *; [| done].
    intros _. split; [done |]. intros Hnd. destruct (Hget Hnd) as [Hg _].
    by rewrite decide_True in Hg.
Qed.

(** A monitor is added; the disk then fails while it is deleted: the store
    has forgotten it, the engine still runs it. *)
Lemma failed_write_leaves_engine_behind_witness :
  let sys := (serve Background (λ _ _, None)
                (ReqAdd "17" (Some (sampleConfig 3 2))) newSystem).2 in
  let r := serve Background (λ _ _, Some "read-only file system")
             (ReqDelete "m1") sys in
  r.1 = 500
  ∧ Store.GetMonitor "m1" (store r.2) = None
  ∧ monitorOf (engine r.2) "m1" = Some (newMonitor (sampleConfig 3 2)).
Proof.
  intros sys r.
  destruct (failed_write_leaves_engine_behind Background
              (λ _ _, Some "read-only file system") (ReqDelete "m1") sys
              ltac:(vm_compute; reflexivity)) as [He Hg].
  split; [vm_compute; reflexivity |].
  split.
  - apply Hg. vm_compute. apply NoDup_singleton.
  - subst r. rewrite He. vm_compute. reflexivity.
Defined.

(** ** The restore handler *)

Lemma updateSubdomains_done cloud zoneID ip proxied subdomains :
  (Handler.updateSubdomains cloud zoneID ip proxied subdomains).2 = None →
  (Handler.updateSubdomains cloud zoneID ip proxied subdomains).1
  = map (λ sub, Handler.DnsUpdate zoneID sub ip proxied) subdomains.
Proof.
  induction subdomains as [| sub rest IH]; simpl; [done |].
  destruct (Handler.updateRecordBySubdomain cloud zoneID sub ip proxied);
    simpl; [done |].
  intros Hok. by rewrite IH.
Qed.

Lemma updateSubdomains_no_notify cloud zoneID ip proxied subdomains name ip' :
  Handler.Notify name ip'
  ∉ (Handler.updateSubdomains cloud zoneID ip proxied subdomains).1.
Proof.
  induction subdomains as [| sub rest IH]; simpl; [apply not_elem_of_nil |].
  destruct (Handler.updateRecordBySubdomain cloud zoneID sub ip proxied);
    simpl.
  - intros Hin. apply list_elem_of_singleton in Hin. discriminate Hin.
  - intros [Hin | Hin]%elem_of_cons; [discriminate Hin | done].
Qed.

Lemma monitorOf_pointer e id m :
  monitorOf e id = Some m →
  ∃ l, Monitors e !! id = Some l ∧ heap e !! l = Some m.
Proof.
  unfold monitorOf. destruct (Monitors e !! id) as [l |]; [| done].
  simpl. eauto.
Qed.

(** X22. RestoreMonitor, for a body that binds and an id the store holds
    with a zone id: the engine is restored by ForceRestore before anything
    is asked of Cloudflare, so it is restored whether the answer is 200 or
    500; when the credentials are missing or the DNS service cannot be made
    the answer is 500 and no record is touched. On 500 the store is
    unchanged and no notification is sent. On 200
    every subdomain was updated once, in order, to the stored primary IP
    with the requested (or else the configured) proxy flag, the notification
    follows, and the newest history entry is the restore event from the IP
    the monitor was on (the stored backup IP when the engine had no monitor
    or its current IP was empty) to the stored primary IP. *)
Theorem RestoreMonitor_restores_first (cloud : Handler.Cloud)
    (disk : Store.Disk) (now : Z) (id : string) (reqProxied : option bool)
    (mCfg : MonitorConfig) (sys : System) :
  Store.GetMonitor id (store sys) = Some mCfg →
  ZoneID mCfg ≠ "" →
  let r := Handler.RestoreMonitor cloud disk now id (Some reqProxied) sys in
  let before := (ForceRestore id (engine sys)).1.1 in
  let fromIP := if decide (before = "") then BackupIP mCfg else before in
  let proxied := default (OriginalIPCDNEnabled mCfg) reqProxied in
  engine r.2 = (ForceRestore id (engine sys)).2
  ∧ (∀ m, monitorOf (engine sys) id = Some m →
       before = CurrentIP m
       ∧ monitorOf (engine r.2) id
         = Some (mkMonitor (Config m) StatusNormal (OriginalIP (Config m)) 0 0
                           (BackupFailCount m) (BackupDown m)))
  ∧ (is_Some (Handler.getDNSService cloud (store sys)) →
       r.1.1 = 500 ∧ r.1.2 = [])
  ∧ (r.1.1 = 500 ∧ store r.2 = store sys
     ∧ Handler.Notify (Name mCfg) (OriginalIP mCfg) ∉ r.1.2
     ∨ r.1.1 = 200
       ∧ r.1.2 = map (λ sub, Handler.DnsUpdate (ZoneID mCfg) sub
                               (OriginalIP mCfg) proxied) (Subdomains mCfg)
                 ++ [Handler.Notify (Name mCfg) (OriginalIP mCfg)]
       ∧ last (Store.History (Store.data (store r.2)))
         = Some (SwitchEvent.mk now (ID mCfg) (Name mCfg) fromIP
                   (OriginalIP mCfg) false (CheckType mCfg) "restore")).
Proof.
  intros Hget Hzone r before fromIP proxied. subst r before fromIP proxied.
  unfold Handler.RestoreMonitor. rewrite Hget.
  rewrite decide_False by done.
  assert (Hm : ∀ m, monitorOf (engine sys) id = Some m →
            (ForceRestore id (engine sys)).1.1 = CurrentIP m
            ∧ monitorOf (ForceRestore id (engine sys)).2 id
              = Some (mkMonitor (Config m) StatusNormal (OriginalIP (Config m))
                                0 0 (BackupFailCount m) (BackupDown m))).
  { intros m Hmon. destruct (monitorOf_pointer _ _ _ Hmon) as (l & Hl & Hh).
    destruct (ForceRestore_at id (engine sys) l m Hl Hh) as (H1 & H2 & _).
    rewrite H1. done. }
  destruct (ForceRestore id (engine sys)) as [[prev ok] e] eqn:Hfr. simpl in *.
  change (match reqProxied with
          | Some b => b
          | None => OriginalIPCDNEnabled mCfg
          end) with (default (OriginalIPCDNEnabled mCfg) reqProxied).
  set (proxied := default (OriginalIPCDNEnabled mCfg) reqProxied).
  destruct (Handler.getDNSService cloud (store sys)) as [err |]; simpl.
  - split_and!; [done | done | done |]. left. split_and!; [done | done |].
    apply not_elem_of_nil.
  - assert (Hnone : is_Some (@None string) → False) by (by intros [? ?]).
    pose proof (updateSubdomains_done cloud (ZoneID mCfg) (OriginalIP mCfg)
                  proxied (Subdomains mCfg)) as Hdone.
    pose proof (updateSubdomains_no_notify cloud (ZoneID mCfg) (OriginalIP mCfg)
                  proxied (Subdomains mCfg) (Name mCfg) (OriginalIP mCfg))
      as Hnn.
    destruct (Handler.updateSubdomains cloud (ZoneID mCfg) (OriginalIP mCfg)
                proxied (Subdomains mCfg)) as [effs [err |]]; simpl in *.
    + split_and!; [done | done | by intros ?%Hnone |]. left. by split_and!.
    + split_and!; [done | done | by intros ?%Hnone |].
      right. split_and!; [done | |].
      * by rewrite Hdone.
      * apply appendCapped_last.
Qed.

Lemma RestoreMonitor_restores_first_witness :
  let cloudDown := Handler.mkCloud (λ _, None) (λ _ _ _ _, Some "timeout") in
  let sys := (serve Background (λ _ _, None)
                (ReqAdd "17" (Some (sampleConfig 1 1))) newSystem).2 in
  let sys := mkSystem (store sys) (tickAt 0 netAllDown (engine sys)).1 in
  let r := Handler.RestoreMonitor cloudDown (λ _ _, None) 1700000000000 "m1"
             (Some None) sys in
  Status_ <$> monitorOf (engine sys) "m1" = Some StatusDown
  ∧ r.1.1 = 500
  ∧ Status_ <$> monitorOf (engine r.2) "m1" = Some StatusNormal
  ∧ Store.History (Store.data (store r.2)) = [].
Proof.
  intros cloudDown sys0 sys r.
  destruct (RestoreMonitor_restores_first cloudDown (λ _ _, None)
              1700000000000 "m1" None (sampleConfig 1 1) sys
              ltac:(vm_compute; reflexivity) ltac:(vm_compute; congruence))
    as (_ & Hm & _).
  destruct (Hm (mkMonitor (sampleConfig 1 1) StatusDown "192.0.2.2" 0 0 0 true)
              ltac:(vm_compute; reflexivity)) as [_ Hafter].
  split; [vm_compute; reflexivity |].
  split; [vm_compute; reflexivity |].
  split; [| vm_compute; reflexivity].
  subst r. rewrite Hafter. reflexivity.
Defined.
